(** * The billion-row aggregator of main.go, embedded and verified

    The file follows main.go: the byte strings and fixed-width integers the
    program computes with, the fixed-decimal parser [parseTemp], the key
    extractor [readNameUntilSemicolon], the chunk planner [calculateChunks],
    the chunk scanner [processChunk], and the merge and rendering steps of
    [MustRun] with [printResults]. *)

From Stdlib Require Import ZArith Lia Bool Ascii String Floats Uint63 DecimalString.
From stdpp Require Import gmap strings list fin_maps sorting.

Local Open Scope Z_scope.

(** ** Bytes and strings

    A Go string is a sequence of bytes: [string], whose characters are the
    bytes. Lengths and indices are Go ints, read in [Z]. *)

Definition byte (c : ascii) : Z := Z.of_N (N_of_ascii c).

Definition len (s : string) : Z := Z.of_nat (String.length s).

(** [s[i]] for an index the code has checked to be in range. *)
Definition index (s : string) (i : Z) : ascii :=
  match String.get (Z.to_nat i) s with
  | Some c => c
  | None => Ascii.zero
  end.

Fixpoint sdrop (n : nat) (s : string) : string :=
  match n, s with
  | O, _ => s
  | S n', String _ s' => sdrop n' s'
  | S _, EmptyString => EmptyString
  end.

Fixpoint stake (n : nat) (s : string) : string :=
  match n, s with
  | S n', String c s' => String c (stake n' s')
  | _, _ => EmptyString
  end.

(** [s[lo:hi]], for bounds in range. *)
Definition slice (s : string) (lo hi : Z) : string :=
  stake (Z.to_nat (hi - lo)) (sdrop (Z.to_nat lo) s).

(** The range check Go makes on [s[lo:hi]]: outside it the program panics. *)
Definition sliceOk (s : string) (lo hi : Z) : bool :=
  (0 <=? lo) && (lo <=? hi) && (hi <=? len s).

Definition semicolon : ascii := ";"%char.
Definition newline : ascii := "010"%char.
Definition minus : ascii := "-"%char.
Definition dot : ascii := "."%char.
Definition nl : string := String newline EmptyString.

(** ** Fixed-width integers: the wrap-around of Go's arithmetic *)

Definition wrap8 (z : Z) : Z := z mod 2 ^ 8.
Definition wrap32 (z : Z) : Z := (z + 2 ^ 31) mod 2 ^ 32 - 2 ^ 31.
Definition wrap64 (z : Z) : Z := (z + 2 ^ 63) mod 2 ^ 64 - 2 ^ 63.

(** ** float64

    Go's float64 is IEEE 754 binary64 with round-to-nearest-even, which is
    what the kernel's primitive floats are. *)

Module F64.

(** [float64(v)] for a signed integer [v] with [|v| < 2^63]. *)
Definition of_int (v : Z) : float :=
  if v <? 0 then PrimFloat.opp (PrimFloat.of_uint63 (Uint63.of_Z (- v)))
  else PrimFloat.of_uint63 (Uint63.of_Z v).

(** The constant [0.01]: the binary64 nearest to one hundredth. *)
Definition hundredth : float := 0x1.47ae147ae147bp-7%float.

Definition is_neg_zero (x : float) : bool :=
  match PrimFloat.classify x with
  | NZero => true
  | _ => false
  end.

(** Go's builtin [min] and [max] on float64: a NaN argument gives NaN, and
    negative zero is below positive zero. *)
Definition min (x y : float) : float :=
  if PrimFloat.is_nan x || PrimFloat.is_nan y then PrimFloat.nan
  else if PrimFloat.ltb x y then x
  else if PrimFloat.ltb y x then y
  else if is_neg_zero x then x else y.

Definition max (x y : float) : float :=
  if PrimFloat.is_nan x || PrimFloat.is_nan y then PrimFloat.nan
  else if PrimFloat.ltb x y then y
  else if PrimFloat.ltb y x then x
  else if is_neg_zero x then y else x.

End F64.

(** ** parseTemp (main.go, lines 329-397) *)

(** [b[k] - '0'] on bytes: the subtraction wraps in uint8. *)
Definition digitAt (b : string) (k : Z) : Z := wrap8 (byte (index b k) - 48).

(** The common tail of the three cases: [v := intv*100 + frac], the sign,
    and [float64(v) * 0.01], in int32. *)
Definition scaled (neg : bool) (intv frac : Z) : option float :=
  let v := wrap32 (wrap32 (intv * 100) + frac) in
  let v := if neg then wrap32 (- v) else v in
  Some (PrimFloat.mul (F64.of_int v) F64.hundredth).

(** The switch of lines 346-394, for the bytes from [i] on. *)
Definition parseCases (b : string) (i : Z) (neg : bool) : option float :=
  if (i + 3 <? len b) && Ascii.eqb (index b (i + 1)) dot then
    let d0 := digitAt b (i + 0) in
    let d1 := digitAt b (i + 2) in
    let d2 := digitAt b (i + 3) in
    if (d0 >? 9) || (d1 >? 9) || (d2 >? 9) then None
    else
      let intv := d0 in
      let frac := wrap32 (wrap32 (d1 * 10) + d2) in
      scaled neg intv frac
  else if (i + 4 <? len b) && Ascii.eqb (index b (i + 2)) dot then
    let d0 := digitAt b (i + 0) in
    let d1 := digitAt b (i + 1) in
    let d2 := digitAt b (i + 3) in
    let d3 := digitAt b (i + 4) in
    if (d0 >? 9) || (d1 >? 9) || (d2 >? 9) || (d3 >? 9) then None
    else
      let intv := wrap32 (wrap32 (d0 * 10) + d1) in
      let frac := wrap32 (wrap32 (d2 * 10) + d3) in
      scaled neg intv frac
  else if (i + 5 <? len b) && Ascii.eqb (index b (i + 3)) dot then
    let d0 := digitAt b (i + 0) in
    let d1 := digitAt b (i + 1) in
    let d2 := digitAt b (i + 2) in
    let d3 := digitAt b (i + 4) in
    let d4 := digitAt b (i + 5) in
    if (d0 >? 9) || (d1 >? 9) || (d2 >? 9) || (d3 >? 9) || (d4 >? 9) then None
    else
      let intv := wrap32 (wrap32 (wrap32 (d0 * 100) + wrap32 (d1 * 10)) + d2) in
      let frac := wrap32 (wrap32 (d3 * 10) + d4) in
      scaled neg intv frac
  else None.

Definition parseTemp (b : string) : option float :=
  if len b <? 4 then None
  else
    let neg := Ascii.eqb (index b 0) minus in
    let i := if neg then 1 else 0 in
    if neg && (len b - i <? 4) then None
    else parseCases b i neg.

(** *** The grammar of the specification: [-]D{1,3}.DD *)

Definition isDigit (c : ascii) : bool := (48 <=? byte c) && (byte c <=? 57).

Definition digitValue (c : ascii) : Z := byte c - 48.

Definition isDot (c : ascii) : bool := Ascii.eqb c dot.

(** One, two or three integer digits, a dot, two fraction digits, and
    nothing else. *)
Definition unsignedForm (s : string) : bool :=
  match s with
  | String a (String p (String x (String y EmptyString))) =>
      isDigit a && isDot p && isDigit x && isDigit y
  | String a (String b (String p (String x (String y EmptyString)))) =>
      isDigit a && isDigit b && isDot p && isDigit x && isDigit y
  | String a (String b (String c (String p (String x (String y EmptyString))))) =>
      isDigit a && isDigit b && isDigit c && isDot p && isDigit x && isDigit y
  | _ => false
  end.

Definition matchesGrammar (s : string) : bool :=
  match s with
  | String c r => if Ascii.eqb c minus then unsignedForm r else unsignedForm s
  | EmptyString => false
  end.

(** The value scaled by 100, as a mathematical integer. *)
Definition unsignedScaled (s : string) : Z :=
  match s with
  | String a (String _ (String x (String y EmptyString))) =>
      digitValue a * 100 + (digitValue x * 10 + digitValue y)
  | String a (String b (String _ (String x (String y EmptyString)))) =>
      (digitValue a * 10 + digitValue b) * 100 + (digitValue x * 10 + digitValue y)
  | String a (String b (String c (String _ (String x (String y EmptyString))))) =>
      (digitValue a * 100 + digitValue b * 10 + digitValue c) * 100
      + (digitValue x * 10 + digitValue y)
  | _ => 0
  end.

Definition scaledValue (s : string) : Z :=
  match s with
  | String c r => if Ascii.eqb c minus then - unsignedScaled r else unsignedScaled s
  | EmptyString => 0
  end.


(** ** Results of a call

    A Go function here returns normally, returns a non-nil error, or
    panics (a slice out of range, a division by zero, a negative length). *)

Inductive error : Type :=
| MmapFailed                         (* "memory-mapping file: ..." *)
| MalformedNumber (raw : string).    (* fmt.Errorf("malformed number: %q", raw) *)

Inductive outcome (A : Type) : Type :=
| Ok (a : A)
| Err (e : error)
| Panic.

Arguments Ok {A} a.
Arguments Err {A} e.
Arguments Panic {A}.

#[global] Instance outcome_bind : MBind outcome := fun A B k m =>
  match m with
  | Ok a => k a
  | Err e => Err e
  | Panic => Panic
  end.

(** ** readNameUntilSemicolon (main.go, lines 170-221) *)

Definition isSemicolon (c : ascii) : bool := Ascii.eqb c semicolon.

(** The tail loop, [for i := range len(s)]: the index of the first [';']
    of [s], counted from [i]. *)
Fixpoint tailScan (s : string) (i : Z) : option Z :=
  match s with
  | EmptyString => None
  | String c s' => if isSemicolon c then Some i else tailScan s' (i + 1)
  end.

(** The loop [for len(s) > 7], eight bytes at a time, then the tail loop.
    [Some offset] is the jump to [END]; [None] is falling out of both loops.
    [offset] counts bytes of [input] already passed: it stays below
    [len(input)], an int, and its additions do not wrap. *)
Fixpoint strideScan (s : string) (offset : Z) : option Z :=
  match s with
  | String c0 (String c1 (String c2 (String c3
      (String c4 (String c5 (String c6 (String c7 rest))))))) =>
      if isSemicolon c0 then Some offset
      else if isSemicolon c1 then Some (offset + 1)
      else if isSemicolon c2 then Some (offset + 2)
      else if isSemicolon c3 then Some (offset + 3)
      else if isSemicolon c4 then Some (offset + 4)
      else if isSemicolon c5 then Some (offset + 5)
      else if isSemicolon c6 then Some (offset + 6)
      else if isSemicolon c7 then Some (offset + 7)
      else strideScan rest (offset + 8)
  | _ =>
      match tailScan s 0 with
      | Some i => Some (offset + i)
      | None => None
      end
  end.

Definition readNameUntilSemicolon (input : string) : string :=
  match strideScan input 0 with
  | Some offset => slice input 0 offset
  | None => input
  end.

(** ** calculateChunks (main.go, lines 142-168) *)

(** [strings.IndexByte(s, c)], with [None] for -1. *)
Fixpoint indexByte (s : string) (c : ascii) : option Z :=
  match s with
  | EmptyString => None
  | String x s' =>
      if Ascii.eqb x c then Some 0
      else match indexByte s' c with
           | Some k => Some (k + 1)
           | None => None
           end
  end.

(** The loop [for i := range numWorkers], [n] iterations left, from
    [currentPos]. [start + chunkSize] and [end += newlineIndex + 1] are int64
    additions. *)
Fixpoint planLoop (n : nat) (data : string) (fileSize chunkSize currentPos : Z)
  : outcome (list (Z * Z)) :=
  match n with
  | O => Ok []
  | S n' =>
      let start := currentPos in
      let end0 := wrap64 (start + chunkSize) in
      end1 ← (if end0 >=? fileSize then Ok fileSize
               else if sliceOk data end0 (len data) then
                 match indexByte (slice data end0 (len data)) newline with
                 | Some newlineIndex => Ok (wrap64 (end0 + wrap64 (newlineIndex + 1)))
                 | None => Ok fileSize
                 end
               else Panic);
      rest ← planLoop n' data fileSize chunkSize end1;
      Ok ((start, end1) :: rest)
  end.

(** [make([][2]int64, numWorkers)] panics for a negative length. It also
    panics for a table larger than the runtime can allocate, 16 bytes per
    worker against a limit that depends on the platform: this definition is
    of worker counts under that limit, and [MustRunWithin] below has the
    limit. *)
Definition calculateChunks (data : string) (fileSize numWorkers : Z)
  : outcome (list (Z * Z)) :=
  if numWorkers <? 0 then Panic                  (* make: len out of range *)
  else if numWorkers =? 0 then Panic             (* integer divide by zero *)
  else
    let chunkSize := wrap64 (Z.quot fileSize numWorkers) in
    chunks ← planLoop (Z.to_nat numWorkers) data fileSize chunkSize 0;
    let last := Z.to_nat (numWorkers - 1) in
    match chunks !! last with
    | Some c => Ok (<[last := (c.1, fileSize)]> chunks)
    | None => Panic
    end.

(** ** StationStats and processChunk (main.go, lines 18-23 and 223-271) *)

Record StationStats : Type := mkStats {
  Count : Z;
  Min : float;
  Max : float;
  Sum : float
}.

(** Lines 255-267: the entry of [name] is updated in place through its
    pointer, or created. *)
Definition observe (stats : gmap string StationStats) (name : string) (temp : float)
  : gmap string StationStats :=
  match stats !! name with
  | Some s =>
      <[name := {| Count := wrap64 (Count s + 1);
                   Min := F64.min (Min s) temp;
                   Max := F64.max (Max s) temp;
                   Sum := PrimFloat.add (Sum s) temp |}]> stats
  | None =>
      <[name := {| Count := 1; Min := temp; Max := temp; Sum := temp |}]> stats
  end.

(** Lines 242-244, [for i < end && data[i] != '\n' { i++ }]: [rest] holds
    the bytes [data[i]], ..., [data[end-1]]. *)
Fixpoint valueEnd (rest : string) (i : Z) : Z :=
  match rest with
  | EmptyString => i
  | String c rest' => if Ascii.eqb c newline then i else valueEnd rest' (i + 1)
  end.

(** The loop [for i < end]. Every iteration that does not leave the loop
    moves [i] forward, so [end - i] iterations are enough: [fuel] only
    makes the recursion structural ([scanLoop_fuel] below). After the slice
    [data[i:end]] was taken, [0 <= i < end <= len(data)], and the positions
    computed in the body stay in [i, end]: their additions do not wrap and
    their indexing is in range. *)
Fixpoint scanLoop (fuel : nat) (data : string) (i end_ : Z)
  (stats : gmap string StationStats) : outcome (gmap string StationStats) :=
  match fuel with
  | O => Ok stats
  | S fuel' =>
      if i <? end_ then
        if sliceOk data i end_ then
          let remaining := slice data i end_ in
          let name := readNameUntilSemicolon remaining in
          if len name =? len remaining then Ok stats      (* break *)
          else
            let i := i + (len name + 1) in
            let start := i in
            let i := valueEnd (slice data i end_) i in
            match parseTemp (slice data start i) with
            | None => Err (MalformedNumber (slice data start i))
            | Some temp =>
                let i := if (i <? end_) && Ascii.eqb (index data i) newline
                         then i + 1 else i in
                scanLoop fuel' data i end_ (observe stats name temp)
            end
        else Panic
      else Ok stats
  end.

Definition processChunk (data : string) (chunk : Z * Z)
  : outcome (gmap string StationStats) :=
  let i := chunk.1 in
  let end_ := chunk.2 in
  scanLoop (Z.to_nat (end_ - i)) data i end_ ∅.

(** ** The merge of MustRun (main.go, lines 121-133) *)

(** The body of the inner loop for one [(station, stats)] pair.
    [finalStats] maps a station to a StationStats value, not to a pointer:
    [existing] is a copy of the stored value, the four assignments change
    the copy, and nothing stores it back. *)
Definition mergeEntry (finalStats : gmap string StationStats)
  (entry : string * StationStats) : gmap string StationStats :=
  let '(station, stats) := entry in
  match finalStats !! station with
  | Some existing =>
      let existing :=
        {| Count := wrap64 (Count existing + Count stats);
           Min := F64.min (Min existing) (Min stats);
           Max := F64.max (Max existing) (Max stats);
           Sum := PrimFloat.add (Sum existing) (Sum stats) |} in
      finalStats
  | None => <[station := stats]> finalStats
  end.

(** [for station, stats := range workerResult], the entries visited in the
    order [entries]. *)
Definition mergeEntries (finalStats : gmap string StationStats)
  (entries : list (string * StationStats)) : gmap string StationStats :=
  foldl mergeEntry finalStats entries.

(** Go leaves the order of a range over a map unspecified: a visiting order
    of [m] is any arrangement of its entries. *)
Definition rangeOrder {V : Type} (m : gmap string V) (entries : list (string * V)) : Prop :=
  entries ≡ₚ map_to_list m.

(** One order, to compute with. *)
Definition mergeWorker (finalStats workerResult : gmap string StationStats)
  : gmap string StationStats :=
  mergeEntries finalStats (map_to_list workerResult).

Definition mergeResults (results : list (gmap string StationStats))
  : gmap string StationStats :=
  foldl mergeWorker ∅ results.

(** The outer loop [for _, workerResult := range results], each worker's
    map ranged over in some order. *)
Inductive mergeAny : list (gmap string StationStats) ->
  gmap string StationStats -> gmap string StationStats -> Prop :=
| mergeAny_nil finalStats : mergeAny [] finalStats finalStats
| mergeAny_cons workerResult results entries finalStats finalStats' :
    rangeOrder workerResult entries ->
    mergeAny results (mergeEntries finalStats entries) finalStats' ->
    mergeAny (workerResult :: results) finalStats finalStats'.

(** ** printResults (main.go, lines 273-290) *)

(** Go's [<] on strings: byte-wise lexicographic. *)
Fixpoint strLtb (a b : string) : bool :=
  match a, b with
  | _, EmptyString => false
  | EmptyString, String _ _ => true
  | String x a', String y b' =>
      if byte x <? byte y then true
      else if byte y <? byte x then false
      else strLtb a' b'
  end.

Definition strLe (a b : string) : Prop := strLtb b a = false.

#[global] Instance strLe_dec a b : Decision (strLe a b).
Proof. unfold strLe. apply _. Defined.

(** [sort.Strings]: the names in increasing order. *)
Definition sortStrings (names : list string) : list string := merge_sort strLe names.

Definition digitChar (d : Z) : ascii := ascii_of_N (Z.to_N (48 + d)).

Definition decimal (n : Z) : string := NilEmpty.string_of_uint (N.to_uint (Z.to_N n)).

(** [m * 2^e] times 100, rounded to the nearest integer, ties to even. *)
Definition roundHundredths (m : positive) (e : Z) : Z :=
  if 0 <=? e then Z.pos m * 100 * 2 ^ e
  else
    let d := 2 ^ (- e) in
    let q := (Z.pos m * 100) / d in
    let r := (Z.pos m * 100) mod d in
    if (d <? 2 * r) || ((d =? 2 * r) && Z.odd q) then q + 1 else q.

(** The verb [%.2f] of package fmt on a float64: the exact decimal value
    rounded to two fraction digits, ties to even, with the sign of the
    float. *)
Definition fmt2 (f : float) : string :=
  match Prim2SF f with
  | S754_nan => "NaN"
  | S754_infinity s => if s then "-Inf" else "+Inf"
  | S754_zero s => (if s then "-" else "") +:+ "0.00"
  | S754_finite s m e =>
      let n := roundHundredths m e in
      (if s then "-" else "") +:+ decimal (n / 100) +:+ "."
      +:+ String (digitChar (n mod 100 / 10)) (String (digitChar (n mod 10)) "")
  end.

Definition zeroStats : StationStats :=
  {| Count := 0; Min := PrimFloat.zero; Max := PrimFloat.zero; Sum := PrimFloat.zero |}.

(** [float64(c)] for an int64 [c]. *)
Definition float64_of_int64 (c : Z) : float :=
  if c =? - 2 ^ 63 then PrimFloat.opp (PrimFloat.mul (F64.of_int (2 ^ 62)) PrimFloat.two)
  else F64.of_int c.

(** Lines 282-284: one [name=min/avg/max]. *)
Definition formatEntry (stats : gmap string StationStats) (name : string) : string :=
  let s := default zeroStats (stats !! name) in
  let avg := PrimFloat.div (Sum s) (float64_of_int64 (Count s)) in
  name +:+ "=" +:+ fmt2 (Min s) +:+ "/" +:+ fmt2 avg +:+ "/" +:+ fmt2 (Max s).

(** Lines 281-288: the entries, [", "] after each but the last. *)
Fixpoint formatEntries (stats : gmap string StationStats) (stationNames : list string)
  : string :=
  match stationNames with
  | [] => ""
  | name :: rest =>
      formatEntry stats name
      +:+ (match rest with [] => "" | _ :: _ => ", " end)
      +:+ formatEntries stats rest
  end.

(** What printResults writes, [stationNames] being the keys in the order of
    the range over [stats]. *)
Definition printResultsFrom (stationNames : list string)
  (stats : gmap string StationStats) : string :=
  "{" +:+ formatEntries stats (sortStrings stationNames) +:+ "}" +:+ nl.

Definition printResults (stats : gmap string StationStats) : string :=
  printResultsFrom (map_to_list stats).*1 stats.

(** ** MustRun, from the mapped file on (main.go, lines 95-139)

    [data] is the content of the file and [numWorkers] the worker count after
    its default was filled in. Left out: the flags, the profiles, opening the
    file, and what goes to stderr (the banner and the timing). An empty file
    cannot be mapped (the mapping has length 0), and MustRun returns that
    error before it plans chunks. *)

(** All workers' results, or the first failure in worker order. *)
Fixpoint collect {A : Type} (results : list (outcome A)) : outcome (list A) :=
  match results with
  | [] => Ok []
  | r :: rest => a ← r; l ← collect rest; Ok (a :: l)
  end.

(** What the merge is handed: one LocalMapping per chunk. *)
Definition scanChunks (data : string) (numWorkers : Z)
  : outcome (list (gmap string StationStats)) :=
  chunks ← calculateChunks data (len data) numWorkers;
  collect (map (processChunk data) chunks).

Definition finalStatsOf (data : string) (numWorkers : Z)
  : outcome (gmap string StationStats) :=
  results ← scanChunks data numWorkers;
  Ok (mergeResults results).

(** One run: the text written to stdout, an error, or a panic. Of several
    failing workers this one reports the first in worker order. *)
Definition MustRun (data : string) (numWorkers : Z) : outcome string :=
  if len data =? 0 then Err MmapFailed
  else
    finalStats ← finalStatsOf data numWorkers;
    Ok (printResults finalStats).

(** Every run: the workers run concurrently, [errg.Wait] returns the error
    of whichever failing worker reported first, and the two ranges over maps
    visit their entries in any order. These are the runs in which the calls
    before the workers succeed: the errors MustRun returns when the file
    does not exist (lines 81-85), cannot be opened (87-90), cannot be mapped
    although it is not empty (95-98) or when its size cannot be read
    (101-104) are not among the outcomes. *)
Inductive MustRunAny (data : string) (numWorkers : Z) : outcome string -> Prop :=
| run_mmap_failed :
    len data = 0 ->
    MustRunAny data numWorkers (Err MmapFailed)
| run_plan_panic :
    len data <> 0 ->
    calculateChunks data (len data) numWorkers = Panic ->
    MustRunAny data numWorkers Panic
| run_worker_panic chunks chunk :
    len data <> 0 ->
    calculateChunks data (len data) numWorkers = Ok chunks ->
    chunk ∈ chunks ->
    processChunk data chunk = Panic ->
    MustRunAny data numWorkers Panic
| run_worker_error chunks chunk e :
    len data <> 0 ->
    calculateChunks data (len data) numWorkers = Ok chunks ->
    chunk ∈ chunks ->
    processChunk data chunk = Err e ->
    MustRunAny data numWorkers (Err e)
| run_printed chunks results finalStats stationNames :
    len data <> 0 ->
    calculateChunks data (len data) numWorkers = Ok chunks ->
    Forall2 (fun chunk r => processChunk data chunk = Ok r) chunks results ->
    mergeAny results ∅ finalStats ->
    stationNames ≡ₚ (map_to_list finalStats).*1 ->
    MustRunAny data numWorkers (Ok (printResultsFrom stationNames finalStats)).

(** What a run leaves on stdout: the rendering, or nothing. *)
Definition stdout (r : outcome string) : string :=
  match r with
  | Ok out => out
  | _ => ""
  end.

(** ** The text of an error

    [%q] quotes its argument as a Go string literal (strconv.Quote). Modelled
    for bytes below 0x80; above, what is printed depends on the UTF-8
    decoding and on the tables of unicode.IsPrint, and the model gives
    [None]. *)

Definition doubleQuote : ascii := "034"%char.
Definition backslash : ascii := "\"%char.

Definition hexChar (d : Z) : ascii := index "0123456789abcdef" d.

Definition quoteByte (c : ascii) : option string :=
  let b := byte c in
  if 128 <=? b then None
  else if Ascii.eqb c doubleQuote || Ascii.eqb c backslash then
    Some (String backslash (String c ""))
  else if (32 <=? b) && (b <? 127) then Some (String c "")
  else if b =? 7 then Some "\a"
  else if b =? 8 then Some "\b"
  else if b =? 12 then Some "\f"
  else if b =? 10 then Some "\n"
  else if b =? 13 then Some "\r"
  else if b =? 9 then Some "\t"
  else if b =? 11 then Some "\v"
  else Some ("\x" +:+ String (hexChar (b / 16)) (String (hexChar (b mod 16)) "")).

Fixpoint quoteBytes (s : string) : option string :=
  match s with
  | EmptyString => Some ""
  | String c s' =>
      match quoteByte c, quoteBytes s' with
      | Some q, Some r => Some (q +:+ r)
      | _, _ => None
      end
  end.

Definition quote (s : string) : option string :=
  match quoteBytes s with
  | Some q => Some (String doubleQuote q +:+ String doubleQuote "")
  | None => None
  end.

Definition errorMessage (e : error) : option string :=
  match e with
  | MalformedNumber raw =>
      match quote raw with
      | Some q => Some ("malformed number: " +:+ q)
      | None => None
      end
  | MmapFailed => None
  end.

(** ** The linear scan of the specification

    The key of a line is the input up to its first [';'], and the whole
    input when it has none. *)

Fixpoint firstSemicolon (s : string) : option Z :=
  match s with
  | EmptyString => None
  | String c s' =>
      if isSemicolon c then Some 0
      else match firstSemicolon s' with
           | Some j => Some (j + 1)
           | None => None
           end
  end.

Definition linearScan (s : string) : string :=
  match firstSemicolon s with
  | Some j => slice s 0 j
  | None => s
  end.

(** ** The partition invariant of the specification *)

(** Each chunk starts where the previous one ends. *)
Definition contiguous (chunks : list (Z * Z)) : Prop :=
  forall i c d, chunks !! i = Some c -> chunks !! S i = Some d -> d.1 = c.2.

(** Chunks laid end to end from [p] within [0, fileSize], every end being
    [fileSize] or the position just after a newline. *)
Inductive chain (data : string) (fileSize : Z) : Z -> list (Z * Z) -> Prop :=
| chain_nil p : chain data fileSize p []
| chain_cons p e rest :
    p <= e <= fileSize ->
    e = fileSize \/ index data (e - 1) = newline ->
    chain data fileSize e rest ->
    chain data fileSize p ((p, e) :: rest).

(** ** Lines, as the scanner reads them *)

Fixpoint hasByte (c : ascii) (s : string) : bool :=
  match s with
  | EmptyString => false
  | String x s' => Ascii.eqb x c || hasByte c s'
  end.

(** What may follow a value field: the end of the chunk, or a newline. *)
Definition endsValue (rest : string) : bool :=
  match rest with
  | EmptyString => true
  | String c _ => Ascii.eqb c newline
  end.

(** The bytes of the terminator the scanner then skips. *)
Definition terminatorLen (rest : string) : Z :=
  match rest with
  | EmptyString => 0
  | String _ _ => 1
  end.

(** A key and a value as a line of the file, [key;value\n]. *)
Definition lineText (kv : string * string) : string :=
  kv.1 +:+ String semicolon (kv.2 +:+ nl).

Fixpoint linesText (lines : list (string * string)) : string :=
  match lines with
  | [] => ""
  | kv :: rest => lineText kv +:+ linesText rest
  end.

(** A line the scanner reads as one key and one value that parses. *)
Definition scannable (kv : string * string) : Prop :=
  hasByte semicolon kv.1 = false /\ hasByte newline kv.2 = false
  /\ is_Some (parseTemp kv.2).

(** Bytes that [%q] copies as they are: printable ASCII other than the
    double quote and the backslash. *)
Definition plainByte (c : ascii) : bool :=
  (32 <=? byte c) && (byte c <? 127)
  && negb (Ascii.eqb c doubleQuote) && negb (Ascii.eqb c backslash).

Fixpoint plainText (s : string) : bool :=
  match s with
  | EmptyString => true
  | String c s' => plainByte c && plainText s'
  end.

(** [sub] occurs in [s] as a run of consecutive bytes. *)
Fixpoint hasPrefix (p s : string) : bool :=
  match p, s with
  | EmptyString, _ => true
  | String x p', String y s' => Ascii.eqb x y && hasPrefix p' s'
  | String _ _, EmptyString => false
  end.

Fixpoint contains (s sub : string) : bool :=
  hasPrefix sub s
  || match s with
     | EmptyString => false
     | String _ s' => contains s' sub
     end.

(** ** Inputs of the examples *)

Definition threeLines : string :=
  "a;1.00" +:+ nl +:+ "a;2.00" +:+ nl +:+ "a;3.00" +:+ nl.

(** A line, then bytes without a semicolon. *)
Definition truncatedTail : string := "a;1.00" +:+ nl +:+ "abc".

(** The scenario of the specification. *)
Definition scenario : string :=
  "stationA;10.00" +:+ nl +:+ "stationB;20.00" +:+ nl
  +:+ "stationA;30.00" +:+ nl +:+ "stationC;-1.00" +:+ nl.

Definition scenarioOutput : string :=
  "{stationA=10.00/20.00/30.00, stationB=20.00/20.00/20.00, stationC=-1.00/-1.00/-1.00}"
  +:+ nl.

Definition carriageReturn : ascii := "013"%char.

(** The statistics of the lines of a chunk: every value observed, in the
    order of the lines. *)
Definition observeLine (stats : gmap string StationStats) (kv : string * string)
  : gmap string StationStats :=
  match parseTemp kv.2 with
  | Some temp => observe stats kv.1 temp
  | None => stats
  end.

Definition observeLines (stats : gmap string StationStats)
  (lines : list (string * string)) : gmap string StationStats :=
  foldl observeLine stats lines.

(** Two lines with values that do not parse, scanned by two workers when
    there are three. *)
Definition twoMalformed : string := "a;NaN" +:+ nl +:+ "b;xyz" +:+ nl.

(** A line with Windows line ends. *)
Definition crlfMalformed : string :=
  "stationA;NaN" +:+ String carriageReturn nl.

(** ** What parseTemp reads

    A string begins with a string of the grammar. *)
Definition hasGrammarPrefix (b : string) : Prop :=
  exists p rest, b = p +:+ rest /\ matchesGrammar p = true.

(** ** Further definitions for the properties of the code *)

(** The float parseTemp returns for the scaled integer [v]. *)
Definition scaledFloat (v : Z) : float := PrimFloat.mul (F64.of_int v) F64.hundredth.

(** A scaled integer written with two fraction digits: [-123] is [-1.23]. *)
Definition showScaled (v : Z) : string :=
  (if v <? 0 then "-" else "") +:+ decimal (Z.abs v / 100) +:+ "."
  +:+ String (digitChar (Z.abs v mod 100 / 10)) (String (digitChar (Z.abs v mod 10)) "").

(** [P] on [v], [v + 1], ..., [fuel] of them. *)
Fixpoint allFrom (fuel : nat) (v : Z) (P : Z -> bool) : bool :=
  match fuel with
  | O => true
  | S fuel' => if P v then allFrom fuel' (v + 1) P else false
  end.

(** [roundHundredths] with shifts for its divisions by a power of two. *)
Definition roundShift (m : positive) (e : Z) : Z :=
  if 0 <=? e then Z.pos m * 100 * 2 ^ e
  else
    let a := Z.pos m * 100 in
    let q := Z.shiftr a (- e) in
    let r := Z.land a (Z.ones (- e)) in
    let d := Z.shiftl 1 (- e) in
    if (d <? 2 * r) || ((d =? 2 * r) && Z.odd q) then q + 1 else q.

(** What is computed of the float [f] of one scaled integer [v]: [f] is
    below the float of [v + 1]; [f / float64(1)], the average of line 283
    for a station with one value, is [f]; and [f] is a number of the sign
    of [v] whose hundredths, rounded, are those of [v]. *)
Definition checked (v : Z) : bool :=
  let f := scaledFloat v in
  PrimFloat.ltb f (scaledFloat (v + 1))
  && PrimFloat.eqb (PrimFloat.div f (float64_of_int64 1)) f
  && match Prim2SF f with
     | S754_finite s m e => Bool.eqb s (v <? 0) && (roundShift m e =? Z.abs v)
     | S754_zero s => negb s && (v =? 0)
     | _ => false
     end.

(** The integer part [n] is written as one to three digits that read
    back as [n]. *)
Definition intPartOk (n : Z) : bool :=
  match decimal n with
  | String a "" => isDigit a && (digitValue a =? n)
  | String a (String b "") =>
      isDigit a && isDigit b && (digitValue a * 10 + digitValue b =? n)
  | String a (String b (String c "")) =>
      isDigit a && isDigit b && isDigit c
      && (digitValue a * 100 + digitValue b * 10 + digitValue c =? n)
  | _ => false
  end.

(** The place of a float that is not a NaN in the order of [SFcompare]:
    its class, then its exponent, then its mantissa. *)
Definition code (f : spec_float) : Z * (Z * Z) :=
  match f with
  | S754_nan => (0, (0, 0))
  | S754_zero _ => (0, (0, 0))
  | S754_infinity s => (if s then - 2 else 2, (0, 0))
  | S754_finite s m e => if s then (- 1, (- e, - Z.pos m)) else (1, (e, Z.pos m))
  end.

(** The order of the codes: by the first place where they differ. *)
Definition codeLt (x y : Z * (Z * Z)) : Prop :=
  x.1 < y.1 \/ (x.1 = y.1 /\ (x.2.1 < y.2.1 \/ (x.2.1 = y.2.1 /\ x.2.2 < y.2.2))).

(** The bytes of the chunks, one after the other. *)
Fixpoint concatSlices (data : string) (chunks : list (Z * Z)) : string :=
  match chunks with
  | [] => ""
  | c :: rest => slice data c.1 c.2 +:+ concatSlices data rest
  end.

(** The entry of [station] in the first of the maps that has one. *)
Fixpoint firstEntry (station : string) (results : list (gmap string StationStats))
  : option StationStats :=
  match results with
  | [] => None
  | r :: rest =>
      match r !! station with
      | Some s => Some s
      | None => firstEntry station rest
      end
  end.

(** The number of lines of [station]. *)
Definition linesOf (station : string) (lines : list (string * string)) : nat :=
  length (filter (fun kv => kv.1 = station) lines).

(** Lines 43-45 of MustRun: no [-w], or [-w 0], is one worker per CPU. *)
Definition workerCount (fWorkers numCPU : Z) : Z :=
  if fWorkers =? 0 then numCPU else fWorkers.

(** The runs of MustRun on a runtime whose allocation limit is [maxAlloc]
    bytes. [make([][2]int64, numWorkers)] at line 143 (runtime.makeslice)
    panics not only for a negative length but also when the
    [16 * numWorkers] bytes of the table are more than [maxAlloc]; the table
    of line 108, of 8 bytes per worker, is allocated after it. An empty
    file fails at the mapping, before either. *)
Definition MustRunWithin (maxAlloc : Z) (data : string) (numWorkers : Z)
  (o : outcome string) : Prop :=
  if decide (len data <> 0 /\ maxAlloc < 16 * numWorkers) then o = Panic
  else MustRunAny data numWorkers o.

(** The count of [station] in a worker's map, 0 when it has no entry. *)
Definition countOf (stats : gmap string StationStats) (station : string) : Z :=
  match stats !! station with
  | Some s => Count s
  | None => 0
  end.

(** Two workers' maps with a station in common. *)
Definition sharedStation : list (gmap string StationStats) :=
  [ {[ "a" := mkStats 2 1 2 3 ]};
    {[ "a" := mkStats 1 30 30 30; "b" := mkStats 1 30 30 30 ]} ].

(** A position where the planner puts the start or the end of a chunk: the
    start of the file, its end, or just after a newline. *)
Definition lineBoundary (data : string) (p : Z) : Prop :=
  p = 0 \/ p = len data \/ index data (p - 1) = newline.


(** A line whose key holds no newline either: no chunk of a plan starts
    inside it. *)
Definition wholeLine (kv : string * string) : Prop :=
  scannable kv /\ hasByte newline kv.1 = false.

(** Groups of lines in which no station has lines in two groups. *)
Fixpoint stationsApart (parts : list (list (string * string))) : Prop :=
  match parts with
  | [] => True
  | part :: rest =>
      (forall station, (0 < linesOf station part)%nat ->
                       linesOf station (concat rest) = 0%nat)
      /\ stationsApart rest
  end.

(** Three lines of three stations. *)
Definition threeStations : string :=
  "a;1.00" +:+ nl +:+ "b;2.00" +:+ nl +:+ "c;3.00" +:+ nl.

(** The entry printed for a station all of whose values are [temp]. *)
Definition constantEntry (name : string) (temp : float) : string :=
  name +:+ "=" +:+ fmt2 temp +:+ "/" +:+ fmt2 temp +:+ "/" +:+ fmt2 temp.

(** The entry [s] holds the extremes of the values of the lines of
    [station]: its Min and its Max are values of two of these lines, and no
    value of these lines is below the Min or above the Max. *)
Definition extremesOf (s : StationStats) (station : string)
  (lines : list (string * string)) : Prop :=
  (exists value, (station, value) ∈ lines /\ parseTemp value = Some (Min s))
  /\ (exists value, (station, value) ∈ lines /\ parseTemp value = Some (Max s))
  /\ forall value t, (station, value) ∈ lines -> parseTemp value = Some t ->
       PrimFloat.ltb t (Min s) = false /\ PrimFloat.ltb (Max s) t = false.

(** What the loop of processChunk keeps true of [stats] after the lines
    [lines]: a station without a line has no entry, and the entry of a
    station holds the floats of the least and of the greatest scaled value
    of its lines. *)
Definition tracked (stats : gmap string StationStats)
  (lines : list (string * string)) : Prop :=
  forall station,
    match stats !! station with
    | None => forall value, (station, value) ∉ lines
    | Some s =>
        exists lo hi vlo vhi,
          - 99999 <= lo <= 99999 /\ - 99999 <= hi <= 99999
          /\ Min s = scaledFloat lo /\ Max s = scaledFloat hi
          /\ (station, vlo) ∈ lines /\ parseTemp vlo = Some (scaledFloat lo)
          /\ (station, vhi) ∈ lines /\ parseTemp vhi = Some (scaledFloat hi)
          /\ forall value v, (station, value) ∈ lines -> - 99999 <= v <= 99999 ->
               parseTemp value = Some (scaledFloat v) -> lo <= v <= hi
    end.

(** * Properties *)

(** ** Facts on fixed-width arithmetic and on bytes *)

Lemma wrap32_small z : - 2 ^ 31 <= z < 2 ^ 31 -> wrap32 z = z.
Proof. intros H. unfold wrap32. rewrite Z.mod_small; lia. Qed.

Lemma wrap64_small z : - 2 ^ 63 <= z < 2 ^ 63 -> wrap64 z = z.
Proof. intros H. unfold wrap64. rewrite Z.mod_small; lia. Qed.

Lemma byte_range c : 0 <= byte c < 256.
Proof.
  unfold byte. pose proof (N_ascii_bounded c) as H. lia.
Qed.

Lemma isDigit_spec c : isDigit c = true <-> 48 <= byte c <= 57.
Proof. unfold isDigit. rewrite andb_true_iff, !Z.leb_le. tauto. Qed.

Lemma digit_of_isDigit c :
  isDigit c = true -> wrap8 (byte c - 48) = digitValue c /\ 0 <= digitValue c <= 9.
Proof.
  intros H%isDigit_spec. unfold wrap8, digitValue.
  rewrite Z.mod_small by lia. lia.
Qed.

Lemma byte_inj c d : byte c = byte d -> c = d.
Proof.
  unfold byte. intros H%Z2N.inj_iff; try lia.
  rewrite !N2Z.id in H. rewrite <- (ascii_N_embedding c), <- (ascii_N_embedding d).
  by rewrite H.
Qed.

Lemma isDot_not_digit c : isDot c = true -> isDigit c = false.
Proof. intros ->%Ascii.eqb_eq. reflexivity. Qed.

Lemma isDigit_not_minus c : isDigit c = true -> Ascii.eqb c minus = false.
Proof.
  intros H. apply Ascii.eqb_neq. intros ->. discriminate H.
Qed.

Lemma index_0 c s : index (String c s) 0 = c.
Proof. reflexivity. Qed.

Lemma index_succ c s k : 0 <= k -> index (String c s) (k + 1) = index s k.
Proof.
  intros Hk. unfold index. rewrite Z2Nat.inj_add by lia.
  rewrite Nat.add_1_r. reflexivity.
Qed.

Lemma len_String c s : len (String c s) = len s + 1.
Proof. unfold len. simpl String.length. lia. Qed.

Lemma len_nonneg s : 0 <= len s.
Proof. unfold len. lia. Qed.

Lemma len_empty : len "" = 0.
Proof. reflexivity. Qed.

(** ** Facts on strings *)

Local Arguments String.append : simpl nomatch.

Lemma length_app (a b : string) :
  String.length (a +:+ b) = (String.length a + String.length b)%nat.
Proof. induction a as [|c a IH]; simpl; [done|]. by rewrite IH. Qed.

Lemma len_app a b : len (a +:+ b) = len a + len b.
Proof. unfold len. rewrite length_app. lia. Qed.

Lemma app_assoc_s (a b c : string) : (a +:+ b) +:+ c = a +:+ (b +:+ c).
Proof. induction a as [|x a IH]; simpl; [done|]. by rewrite IH. Qed.

Lemma length_sdrop n s : String.length (sdrop n s) = (String.length s - n)%nat.
Proof.
  revert s. induction n as [|n IH]; intros [|c s]; simpl; done.
Qed.

Lemma length_stake n s : String.length (stake n s) = Nat.min n (String.length s).
Proof.
  revert s. induction n as [|n IH]; intros [|c s]; simpl; try done.
  by rewrite IH.
Qed.

Lemma stake_all n s : (String.length s <= n)%nat -> stake n s = s.
Proof.
  revert s. induction n as [|n IH]; intros [|c s] H; simpl in *; try done; try lia.
  rewrite IH; [done|lia].
Qed.

Lemma sdrop_app_length a b : sdrop (String.length a) (a +:+ b) = b.
Proof. induction a as [|c a IH]; simpl; done. Qed.

Lemma stake_app_length a b : stake (String.length a) (a +:+ b) = a.
Proof. induction a as [|c a IH]; simpl; [by destruct b|]. by rewrite IH. Qed.

Lemma sdrop_sdrop n m s : sdrop m (sdrop n s) = sdrop (n + m) s.
Proof.
  revert s. induction n as [|n IH]; intros s; simpl; [done|].
  destruct s as [|c s]; [by destruct m|]. apply IH.
Qed.

Lemma sdrop_stake m n s : sdrop m (stake n s) = stake (n - m) (sdrop m s).
Proof.
  revert n s. induction m as [|m IH]; intros n s; simpl.
  - by rewrite Nat.sub_0_r.
  - destruct n as [|n]; simpl; [done|].
    destruct s as [|c s]; simpl; [by destruct (n - m)%nat|]. apply IH.
Qed.

Lemma stake_stake m n s : (m <= n)%nat -> stake m (stake n s) = stake m s.
Proof.
  revert n s. induction m as [|m IH]; intros n s H; simpl; [done|].
  destruct n as [|n]; [lia|]. destruct s as [|c s]; simpl; [done|].
  rewrite IH; [done|lia].
Qed.

Lemma get_sdrop n k s : String.get k (sdrop n s) = String.get (n + k) s.
Proof.
  revert s. induction n as [|n IH]; intros s; simpl; [done|].
  destruct s as [|c s]; simpl; [by destruct k|]. apply IH.
Qed.

Lemma get_app_length a c b : String.get (String.length a) (a +:+ String c b) = Some c.
Proof. induction a as [|x a IH]; simpl; done. Qed.

Lemma index_sdrop n k s : 0 <= k -> index (sdrop n s) k = index s (Z.of_nat n + k).
Proof.
  intros Hk. unfold index. rewrite get_sdrop.
  replace (Z.to_nat (Z.of_nat n + k)) with (n + Z.to_nat k)%nat by lia. done.
Qed.

(** A slice in range has the length of its bounds. *)
Lemma len_slice s lo hi : sliceOk s lo hi = true -> len (slice s lo hi) = hi - lo.
Proof.
  unfold sliceOk, slice, len. rewrite !andb_true_iff, !Z.leb_le.
  intros [[H0 H1] H2]. rewrite length_stake, length_sdrop. unfold len in H2. lia.
Qed.

Lemma slice_to_end s lo : 0 <= lo -> slice s lo (len s) = sdrop (Z.to_nat lo) s.
Proof.
  intros H. unfold slice. apply stake_all. rewrite length_sdrop. unfold len. lia.
Qed.

(** The rest of a slice after a prefix of it. *)
Lemma slice_after_prefix s lo hi a b :
  sliceOk s lo hi = true -> slice s lo hi = a +:+ b ->
  slice s (lo + len a) hi = b.
Proof.
  intros Hok Hs. pose proof (len_slice _ _ _ Hok) as Hl.
  rewrite Hs, len_app in Hl.
  unfold sliceOk in Hok. rewrite !andb_true_iff, !Z.leb_le in Hok.
  unfold slice in *. unfold len in *.
  replace (Z.to_nat (lo + Z.of_nat (String.length a)))
    with (Z.to_nat lo + String.length a)%nat by lia.
  rewrite <- sdrop_sdrop.
  replace (Z.to_nat (hi - (lo + Z.of_nat (String.length a))))
    with (Z.to_nat (hi - lo) - String.length a)%nat by lia.
  rewrite <- sdrop_stake, Hs. apply sdrop_app_length.
Qed.

(** A prefix of a slice is a slice. *)
Lemma slice_prefix s lo hi a b :
  sliceOk s lo hi = true -> slice s lo hi = a +:+ b ->
  slice s lo (lo + len a) = a.
Proof.
  intros Hok Hs. pose proof (len_slice _ _ _ Hok) as Hl.
  rewrite Hs, len_app in Hl.
  unfold slice in *. unfold len in *.
  replace (Z.to_nat (lo + Z.of_nat (String.length a) - lo)) with (String.length a) by lia.
  rewrite <- (stake_stake _ (Z.to_nat (hi - lo))) by lia.
  rewrite Hs. apply stake_app_length.
Qed.

(** The byte after a prefix of a slice. *)
Lemma index_after_prefix s lo hi a c b :
  sliceOk s lo hi = true -> slice s lo hi = a +:+ String c b ->
  index s (lo + len a) = c.
Proof.
  intros Hok Hs.
  unfold sliceOk in Hok. rewrite !andb_true_iff, !Z.leb_le in Hok.
  assert (String.get (String.length a) (slice s lo hi) = Some c) as Hg.
  { rewrite Hs. apply get_app_length. }
  unfold slice in Hg.
  assert (forall n k t x, String.get k (stake n t) = Some x -> String.get k t = Some x) as Hst.
  { induction n as [|n IH]; intros k [|y t] x; simpl; try done.
    destruct k; [done|]. apply IH. }
  apply Hst in Hg. rewrite get_sdrop in Hg.
  unfold index, len.
  replace (Z.to_nat (lo + Z.of_nat (String.length a)))
    with (Z.to_nat lo + String.length a)%nat by lia.
  by rewrite Hg.
Qed.

Lemma sliceOk_spec s lo hi :
  sliceOk s lo hi = true <-> 0 <= lo /\ lo <= hi /\ hi <= len s.
Proof. unfold sliceOk. rewrite !andb_true_iff, !Z.leb_le. tauto. Qed.

Lemma hasByte_app c a b : hasByte c (a +:+ b) = hasByte c a || hasByte c b.
Proof.
  induction a as [|x a IH]; simpl; [done|]. by rewrite IH, orb_assoc.
Qed.

(** ** The fixed-decimal parser *)

Lemma scaled_exact neg intv frac :
  0 <= intv <= 999 -> 0 <= frac <= 99 ->
  scaled neg intv frac
  = Some (PrimFloat.mul (F64.of_int (if neg then - (intv * 100 + frac) else intv * 100 + frac))
            F64.hundredth).
Proof.
  intros Hi Hf. unfold scaled.
  rewrite (wrap32_small (intv * 100)) by lia.
  rewrite (wrap32_small (intv * 100 + frac)) by lia.
  destruct neg; [rewrite wrap32_small by lia|]; reflexivity.
Qed.

Local Arguments byte : simpl never.
Local Arguments wrap8 : simpl never.
Local Arguments wrap32 : simpl never.
Local Arguments scaled : simpl never.
Local Arguments Ascii.eqb : simpl never.
Local Arguments digitValue : simpl never.

Ltac index_eval :=
  repeat match goal with
  | |- context [index ?s ?k] =>
      let v := eval cbv in (index s k) in change (index s k) with v
  end.

Lemma digit_ok c : isDigit c = true -> (wrap8 (byte c - 48) >? 9) = false.
Proof.
  intros [-> ?]%digit_of_isDigit. lia.
Qed.

Lemma digit_val c : isDigit c = true -> wrap8 (byte c - 48) = digitValue c.
Proof. intros H. apply digit_of_isDigit, H. Qed.

Lemma digitValue_range c : isDigit c = true -> 0 <= digitValue c <= 9.
Proof. intros H. apply digit_of_isDigit, H. Qed.

Ltac parse_digits :=
  repeat match goal with
  | H : isDigit ?c = true |- _ =>
      rewrite ?(digit_ok c H), ?(digit_val c H);
      pose proof (digitValue_range c H); clear H
  end.

Ltac unwrap32 :=
  repeat match goal with
  | |- context [wrap32 ?z] =>
      lazymatch z with
      | context [wrap32 _] => fail
      | _ => rewrite (wrap32_small z) by lia
      end
  end.

Ltac split_andb H :=
  rewrite ?andb_true_iff in H;
  repeat match goal with
  | H' : _ /\ _ |- _ => destruct H' as [? ?]
  end.

Ltac use_dots :=
  repeat match goal with
  | H : isDot ?c = true |- _ => unfold isDot in H; rewrite ?H; clear H
  end.

Ltac parse_finish :=
  simpl; index_eval; use_dots; parse_digits; simpl orb; cbv iota;
  unwrap32; rewrite !scaled_exact by lia.

Lemma parseTemp_unsigned r :
  unsignedForm r = true ->
  parseTemp r = Some (PrimFloat.mul (F64.of_int (unsignedScaled r)) F64.hundredth)
  /\ parseTemp (String minus r)
     = Some (PrimFloat.mul (F64.of_int (- unsignedScaled r)) F64.hundredth)
  /\ 0 <= unsignedScaled r <= 99999.
Proof.
  intros H.
  destruct r as [|a [|b [|c [|d [|e [|f [|g r]]]]]]]; try discriminate H.
  - (* D.DD *)
    simpl in H. split_andb H.
    assert (Ha : Ascii.eqb a minus = false) by auto using isDigit_not_minus.
    unfold parseTemp, parseCases, digitAt. rewrite !index_0, Ha, Ascii.eqb_refl.
    parse_finish. simpl unsignedScaled. repeat split; try reflexivity; lia.
  - (* DD.DD *)
    simpl in H. assert (Hb : isDot b = false).
    { destruct (isDot b) eqn:Hb; [|done]. apply isDot_not_digit in Hb.
      rewrite Hb in H. rewrite !andb_false_r in H. simpl in H. discriminate. }
    split_andb H.
    assert (Ha : Ascii.eqb a minus = false) by auto using isDigit_not_minus.
    unfold parseTemp, parseCases, digitAt. rewrite !index_0, Ha, Ascii.eqb_refl.
    simpl. index_eval. unfold isDot in Hb. rewrite Hb.
    parse_finish. simpl unsignedScaled. repeat split; try reflexivity; lia.
  - (* DDD.DD *)
    simpl in H. 
    assert (Hb : isDot b = false /\ isDot c = false).
    { split.
      - destruct (isDot b) eqn:Hb; [|done]. apply isDot_not_digit in Hb.
        rewrite Hb in H. rewrite !andb_false_r in H. simpl in H. discriminate.
      - destruct (isDot c) eqn:Hb; [|done]. apply isDot_not_digit in Hb.
        rewrite Hb in H. rewrite !andb_false_r in H. simpl in H. discriminate. }
    destruct Hb as [Hb Hc].
    split_andb H.
    assert (Ha : Ascii.eqb a minus = false) by auto using isDigit_not_minus.
    unfold parseTemp, parseCases, digitAt. rewrite !index_0, Ha, Ascii.eqb_refl.
    simpl. index_eval. unfold isDot in Hb, Hc. rewrite Hb, Hc.
    parse_finish. simpl unsignedScaled. repeat split; try reflexivity; lia.
Qed.

(** C8: every string of the grammar [-]D{1,3}.DD is parsed, to
    [float64(v) * 0.01] for [v] the digits read as the value scaled by 100
    and signed; the int32 arithmetic behind [v] is exact: [v] is the
    mathematical [scaledValue], within +-99999. *)
Theorem parseTemp_scaled_value b :
  matchesGrammar b = true ->
  parseTemp b = Some (PrimFloat.mul (F64.of_int (scaledValue b)) F64.hundredth)
  /\ - 99999 <= scaledValue b <= 99999.
Proof.
  intros H. destruct b as [|c0 r]; [discriminate|].
  unfold matchesGrammar in H. unfold scaledValue.
  destruct (Ascii.eqb c0 minus) eqn:Hneg.
  - apply Ascii.eqb_eq in Hneg. subst c0.
    destruct (parseTemp_unsigned r H) as (_ & -> & Hr). split; [reflexivity|lia].
  - destruct (parseTemp_unsigned _ H) as (-> & _ & Hr). split; [reflexivity|lia].
Qed.

Lemma parseTemp_scaled_value_witness :
  matchesGrammar "-1.00" = true
  /\ parseTemp "-1.00"
     = Some (PrimFloat.mul (F64.of_int (scaledValue "-1.00")) F64.hundredth)
  /\ - 99999 <= scaledValue "-1.00" <= 99999.
Proof.
  split; [reflexivity | apply (parseTemp_scaled_value "-1.00"); reflexivity].
Defined.

(** The examples of the specification. *)
Example scaledValue_examples :
  scaledValue "23.40" = 2340 /\ scaledValue "-1.00" = - 100
  /\ parseTemp "23.40" = Some (PrimFloat.mul (F64.of_int 2340) F64.hundredth)
  /\ parseTemp "-1.00" = Some (PrimFloat.mul (F64.of_int (- 100)) F64.hundredth).
Proof. repeat split; vm_compute; reflexivity. Qed.

(** *** What parseTemp accepts *)

Lemma ltb_shift a b : (1 + a <? b + 1) = (0 + a <? b).
Proof. destruct (Z.ltb_spec (1 + a) (b + 1)), (Z.ltb_spec (0 + a) b); lia. Qed.

Lemma index_shift c r k : 0 <= k -> index (String c r) (1 + k) = index r (0 + k).
Proof. intros H. rewrite Z.add_comm, index_succ by lia. done. Qed.

Lemma parseCases_shift c r neg : parseCases (String c r) 1 neg = parseCases r 0 neg.
Proof.
  unfold parseCases, digitAt. rewrite len_String, !ltb_shift.
  rewrite !index_shift by lia. reflexivity.
Qed.

Lemma digit_check c : (wrap8 (byte c - 48) >? 9) = false -> isDigit c = true.
Proof.
  intros H. apply isDigit_spec. pose proof (byte_range c) as Hb.
  unfold wrap8 in H. destruct (Z.ltb_spec (byte c) 48) as [Hlt|Hge].
  - replace ((byte c - 48) mod 2 ^ 8) with (byte c + 208) in H; [lia|].
    apply Z.mod_unique with (q := -1); lia.
  - rewrite Z.mod_small in H by lia. lia.
Qed.

Ltac ltb_decide :=
  repeat match goal with
  | |- context [?a <? ?b] =>
      first [ rewrite (proj2 (Z.ltb_lt a b)) by lia
            | rewrite (proj2 (Z.ltb_ge a b)) by lia ]
  end.

Ltac len_norm :=
  rewrite ?len_String, ?len_empty;
  repeat match goal with
  | |- context [len ?s] =>
      lazymatch goal with
      | _ : 0 <= len s |- _ => fail
      | _ => pose proof (len_nonneg s)
      end
  end.

Lemma scaled_is_Some neg intv frac : is_Some (scaled neg intv frac).
Proof. unfold scaled. eauto. Qed.

(** A string of the unsigned forms, followed by anything, is accepted. *)
Lemma parseCases_prefix p rest neg :
  unsignedForm p = true -> is_Some (parseCases (p +:+ rest) 0 neg).
Proof.
  intros H.
  destruct p as [|a [|b [|c [|d [|e [|f [|g p]]]]]]]; try discriminate H.
  - simpl in H. split_andb H.
    simpl String.append. unfold parseCases, digitAt. len_norm. ltb_decide.
    index_eval. use_dots. parse_digits. simpl orb. cbv iota beta zeta.
    apply scaled_is_Some.
  - simpl in H. assert (Hb : isDot b = false).
    { destruct (isDot b) eqn:Hb; [|done]. apply isDot_not_digit in Hb.
      rewrite Hb in H. rewrite !andb_false_r in H. simpl in H. discriminate. }
    split_andb H.
    simpl String.append. unfold parseCases, digitAt. len_norm. ltb_decide.
    index_eval. unfold isDot in Hb. rewrite Hb. use_dots. parse_digits.
    simpl orb. simpl andb. cbv iota beta zeta. apply scaled_is_Some.
  - simpl in H.
    assert (Hb : isDot b = false /\ isDot c = false).
    { split.
      - destruct (isDot b) eqn:Hb; [|done]. apply isDot_not_digit in Hb.
        rewrite Hb in H. rewrite !andb_false_r in H. simpl in H. discriminate.
      - destruct (isDot c) eqn:Hb; [|done]. apply isDot_not_digit in Hb.
        rewrite Hb in H. rewrite !andb_false_r in H. simpl in H. discriminate. }
    destruct Hb as [Hb Hc]. split_andb H.
    simpl String.append. unfold parseCases, digitAt. len_norm. ltb_decide.
    index_eval. unfold isDot in Hb, Hc. rewrite Hb, Hc. use_dots. parse_digits.
    simpl orb. simpl andb. cbv iota beta zeta. apply scaled_is_Some.
Qed.

Ltac digit_cases :=
  repeat match goal with
  | |- context [wrap8 (byte ?c - 48) >? 9] =>
      let E := fresh "E" in
      destruct (wrap8 (byte c - 48) >? 9) eqn:E;
      [ simpl; try (intros [? ?]; discriminate) | apply digit_check in E ]
  end.

Ltac form_done :=
  simpl; unfold isDot;
  repeat match goal with H : _ = true |- _ => rewrite H; clear H end;
  reflexivity.

Ltac no_parse := simpl; intros [? ?]; discriminate.

(** What the switch accepts begins with a string of the unsigned forms. *)
Lemma parseCases_accepts s neg :
  is_Some (parseCases s 0 neg) ->
  exists p rest, s = p +:+ rest /\ unsignedForm p = true.
Proof.
  destruct s as [|a [|b [|c [|d [|e [|f t]]]]]];
    unfold parseCases, digitAt; len_norm; ltb_decide; index_eval.
  - no_parse.
  - no_parse.
  - no_parse.
  - no_parse.
  - destruct (Ascii.eqb b dot) eqn:Hb; [|no_parse].
    simpl andb. cbv iota. digit_cases. intros _.
    exists (String a (String b (String c (String d "")))), "".
    split; [reflexivity|form_done].
  - destruct (Ascii.eqb b dot) eqn:Hb.
    + simpl andb. cbv iota. digit_cases. intros _.
      exists (String a (String b (String c (String d "")))), (String e "").
      split; [reflexivity|form_done].
    + destruct (Ascii.eqb c dot) eqn:Hc; [|no_parse].
      simpl andb. cbv iota. digit_cases. intros _.
      exists (String a (String b (String c (String d (String e ""))))), "".
      split; [reflexivity|form_done].
  - destruct (Ascii.eqb b dot) eqn:Hb.
    + simpl andb. cbv iota. digit_cases. intros _.
      exists (String a (String b (String c (String d "")))), (String e (String f t)).
      split; [reflexivity|form_done].
    + destruct (Ascii.eqb c dot) eqn:Hc.
      * simpl andb. cbv iota. digit_cases. intros _.
        exists (String a (String b (String c (String d (String e ""))))), (String f t).
        split; [reflexivity|form_done].
      * destruct (Ascii.eqb d dot) eqn:Hd; [|no_parse].
        simpl andb. cbv iota. digit_cases. intros _.
        exists (String a (String b (String c (String d (String e (String f "")))))), t.
        split; [reflexivity|form_done].
Qed.

Lemma unsignedForm_first p :
  unsignedForm p = true ->
  exists a r, p = String a r /\ isDigit a = true /\ 4 <= len p.
Proof.
  intros H.
  destruct p as [|a [|b [|c [|d [|e [|f [|g p]]]]]]]; try discriminate H;
    simpl in H; split_andb H; exists a; eexists; (split; [reflexivity|]);
    (split; [done|]); len_norm; lia.
Qed.

(** parseTemp accepts the strings that begin with a string of the grammar,
    and no others: what follows the two fraction digits is not looked at. *)
Lemma parseTemp_accepts_iff b : is_Some (parseTemp b) <-> hasGrammarPrefix b.
Proof.
  unfold hasGrammarPrefix. split.
  - unfold parseTemp. destruct (len b <? 4) eqn:Hlen; [intros [? ?]; discriminate|].
    destruct b as [|c r]; [discriminate Hlen|]. rewrite index_0.
    destruct (Ascii.eqb c minus) eqn:Hc.
    + apply Ascii.eqb_eq in Hc. subst c. simpl andb.
      destruct (len (String minus r) - 1 <? 4); [intros [? ?]; discriminate|].
      rewrite parseCases_shift. intros (p & rest & -> & Hp)%parseCases_accepts.
      exists (String minus p), rest. split; [reflexivity|].
      unfold matchesGrammar. by rewrite Ascii.eqb_refl.
    + simpl andb. cbv iota. intros (p & rest & Hb & Hp)%parseCases_accepts.
      exists p, rest. split; [done|].
      destruct (unsignedForm_first _ Hp) as (a & r' & -> & Ha & _).
      unfold matchesGrammar. by rewrite (isDigit_not_minus _ Ha).
  - intros (p & rest & -> & Hp). unfold matchesGrammar in Hp.
    destruct p as [|c r]; [discriminate|].
    destruct (Ascii.eqb c minus) eqn:Hc.
    + apply Ascii.eqb_eq in Hc. subst c.
      destruct (unsignedForm_first _ Hp) as (a & r' & -> & Ha & Hl).
      unfold parseTemp. simpl String.append. rewrite index_0, Ascii.eqb_refl.
      rewrite !len_String, len_app in *. pose proof (len_nonneg r').
      pose proof (len_nonneg rest). ltb_decide. simpl andb. cbv iota.
      change (String minus (String a (r' +:+ rest)))
        with (String minus (String a r' +:+ rest)).
      rewrite parseCases_shift. by apply parseCases_prefix.
    + destruct (unsignedForm_first _ Hp) as (a & r' & [= <- <-] & Ha & Hl).
      unfold parseTemp. simpl String.append. rewrite index_0, Hc.
      rewrite !len_String, len_app in *. pose proof (len_nonneg r).
      pose proof (len_nonneg rest). ltb_decide. simpl andb. cbv iota.
      change (String c (r +:+ rest)) with (String c r +:+ rest).
      by apply parseCases_prefix.
Qed.

(** C2: parseTemp reads a prefix and does not look at what follows it:
    strings that are not of the grammar are accepted. *)
Lemma parseTemp_accepts_trailing_bytes :
  matchesGrammar "1.234" = false
  /\ parseTemp "1.234" = Some (PrimFloat.mul (F64.of_int 123) F64.hundredth)
  /\ matchesGrammar "10.00abc" = false
  /\ parseTemp "10.00abc" = Some (PrimFloat.mul (F64.of_int 1000) F64.hundredth)
  /\ MustRun ("stationA;1.234" +:+ nl) 1 = Ok ("{stationA=1.23/1.23/1.23}" +:+ nl).
Proof. repeat split; vm_compute; reflexivity. Qed.

(** ** The key extractor *)

Lemma tailScan_spec s i :
  tailScan s i = match firstSemicolon s with Some j => Some (i + j) | None => None end.
Proof.
  revert i. induction s as [|c s IH]; intros i; simpl; [done|].
  destruct (isSemicolon c); [f_equal; lia|].
  rewrite IH. destruct (firstSemicolon s); [f_equal; lia|done].
Qed.

Lemma strideScan_spec n : forall s offset,
  (String.length s <= n)%nat ->
  strideScan s offset
  = match firstSemicolon s with Some j => Some (offset + j) | None => None end.
Proof.
  induction n as [n IH] using lt_wf_ind. intros s offset Hn.
  destruct s as [|c0 [|c1 [|c2 [|c3 [|c4 [|c5 [|c6 [|c7 rest]]]]]]]];
    try (unfold strideScan; rewrite tailScan_spec;
         destruct (firstSemicolon _); reflexivity).
  cbn [strideScan firstSemicolon].
  repeat (match goal with |- context [isSemicolon ?c] => destruct (isSemicolon c) end;
          [f_equal; lia|]).
  simpl in Hn. rewrite (IH (String.length rest)) by lia.
  destruct (firstSemicolon rest); [f_equal; lia|done].
Qed.

Lemma readName_firstSemicolon s :
  readNameUntilSemicolon s
  = match firstSemicolon s with Some j => slice s 0 j | None => s end.
Proof.
  unfold readNameUntilSemicolon.
  rewrite (strideScan_spec (String.length s)) by lia.
  destruct (firstSemicolon s); [f_equal|done].
Qed.

Lemma firstSemicolon_first s : forall j,
  0 <= j < len s ->
  index s j = semicolon ->
  (forall k, 0 <= k < j -> index s k <> semicolon) ->
  firstSemicolon s = Some j.
Proof.
  induction s as [|c s IH]; intros j Hj Hi Hbefore.
  - rewrite len_empty in Hj. lia.
  - rewrite len_String in Hj. cbn [firstSemicolon]. unfold isSemicolon.
    destruct (Ascii.eqb c semicolon) eqn:Hc.
    + destruct (decide (j = 0)) as [->|Hne]; [done|].
      apply Ascii.eqb_eq in Hc. destruct (Hbefore 0); [lia|by rewrite index_0].
    + assert (j <> 0) as Hne.
      { intros ->. rewrite index_0 in Hi. subst c. by rewrite Ascii.eqb_refl in Hc. }
      rewrite (IH (j - 1)).
      * f_equal. lia.
      * lia.
      * rewrite <- Hi. replace j with (j - 1 + 1) at 2 by lia.
        by rewrite index_succ by lia.
      * intros k Hk. specialize (Hbefore (k + 1) ltac:(lia)).
        by rewrite index_succ in Hbefore by lia.
Qed.

Lemma firstSemicolon_none s : hasByte semicolon s = false -> firstSemicolon s = None.
Proof.
  induction s as [|c s IH]; simpl; [done|].
  intros [Hc Hs]%orb_false_iff. unfold isSemicolon. rewrite Hc, IH; done.
Qed.

Lemma firstSemicolon_key k rest :
  hasByte semicolon k = false ->
  firstSemicolon (k +:+ String semicolon rest) = Some (len k).
Proof.
  induction k as [|c k IH]; simpl.
  - intros _. reflexivity.
  - intros [Hc Hs]%orb_false_iff. unfold isSemicolon. rewrite Hc, IH by done.
    by rewrite len_String.
Qed.

Lemma readName_whole s :
  hasByte semicolon s = false -> readNameUntilSemicolon s = s.
Proof. intros H. by rewrite readName_firstSemicolon, firstSemicolon_none. Qed.

Lemma readName_key k rest :
  hasByte semicolon k = false ->
  readNameUntilSemicolon (k +:+ String semicolon rest) = k.
Proof.
  intros H. rewrite readName_firstSemicolon, firstSemicolon_key by done.
  unfold slice, len. rewrite Z.sub_0_r, Nat2Z.id. simpl sdrop.
  apply stake_app_length.
Qed.

(** C7: the eight-byte stride scan of readNameUntilSemicolon returns what the
    linear scan returns: the input up to the index [j] of its first
    semicolon, [s[:j]], and the whole input when it has no semicolon. *)
Theorem readNameUntilSemicolon_linear s :
  readNameUntilSemicolon s = linearScan s
  /\ (forall j, 0 <= j < len s ->
        index s j = semicolon ->
        (forall k, 0 <= k < j -> index s k <> semicolon) ->
        readNameUntilSemicolon s = slice s 0 j)
  /\ (hasByte semicolon s = false -> readNameUntilSemicolon s = s).
Proof.
  split; [|split].
  - unfold linearScan. apply readName_firstSemicolon.
  - intros j Hj Hi Hbefore.
    by rewrite readName_firstSemicolon, (firstSemicolon_first s j).
  - apply readName_whole.
Qed.

(** ** The chunk planner *)

Lemma indexByte_Some s c k :
  indexByte s c = Some k -> 0 <= k < len s /\ index s k = c.
Proof.
  revert k. induction s as [|x s IH]; intros k; simpl; [done|].
  destruct (Ascii.eqb x c) eqn:Hx.
  - intros [= <-]. apply Ascii.eqb_eq in Hx. rewrite len_String.
    pose proof (len_nonneg s). split; [lia|]. by rewrite index_0.
  - destruct (indexByte s c) as [j|]; [|done]. intros [= <-].
    destruct (IH j eq_refl) as [Hj Hi]. rewrite len_String.
    split; [lia|]. rewrite index_succ by lia. done.
Qed.

Lemma planLoop_chain data chunkSize n : forall pos,
  0 <= chunkSize -> 0 <= pos <= len data -> len data + chunkSize < 2 ^ 63 ->
  exists chunks,
    planLoop n data (len data) chunkSize pos = Ok chunks
    /\ length chunks = n
    /\ chain data (len data) pos chunks.
Proof.
  induction n as [|n IH]; intros pos Hc Hpos Hfit.
  - exists []. repeat split. constructor.
  - cbn [planLoop].
    rewrite (wrap64_small (pos + chunkSize)) by lia.
    assert (exists e, (if pos + chunkSize >=? len data then Ok (len data)
               else if sliceOk data (pos + chunkSize) (len data) then
                 match indexByte (slice data (pos + chunkSize) (len data)) newline with
                 | Some newlineIndex =>
                     Ok (wrap64 (pos + chunkSize + wrap64 (newlineIndex + 1)))
                 | None => Ok (len data)
                 end
               else Panic) = Ok e
             /\ pos <= e <= len data
             /\ (e = len data \/ index data (e - 1) = newline)) as (e & -> & He & Hb).
    { destruct (pos + chunkSize >=? len data) eqn:Hge.
      - exists (len data). repeat split; lia.
      - assert (pos + chunkSize < len data) as Hlt by lia.
        assert (sliceOk data (pos + chunkSize) (len data) = true) as ->.
        { unfold sliceOk. rewrite !andb_true_iff, !Z.leb_le. lia. }
        rewrite slice_to_end by lia.
        destruct (indexByte _ newline) as [k|] eqn:Hk.
        + apply indexByte_Some in Hk as [Hk Hi].
          unfold len in Hk at 1. rewrite length_sdrop in Hk.
          rewrite index_sdrop in Hi by lia.
          assert (0 <= k < len data - (pos + chunkSize)) as Hk'.
          { unfold len. lia. }
          rewrite (wrap64_small (k + 1)) by lia.
          rewrite wrap64_small by lia.
          exists (pos + chunkSize + (k + 1)). repeat split; try lia.
          right. rewrite <- Hi. f_equal. lia.
        + exists (len data). repeat split; lia. }
    destruct (IH e Hc ltac:(lia) Hfit) as (rest & Hrest & Hlen & Hchain).
    cbn [mbind outcome_bind]. rewrite Hrest. cbn.
    exists ((pos, e) :: rest). repeat split; [by rewrite <- Hlen|].
    by constructor.
Qed.

Lemma chain_lookup data fileSize chunks : forall p i c,
  chain data fileSize p chunks -> chunks !! i = Some c ->
  p <= c.1 /\ c.1 <= c.2 <= fileSize
  /\ (c.2 = fileSize \/ index data (c.2 - 1) = newline)
  /\ (i = 0%nat -> c.1 = p)
  /\ (forall d, chunks !! S i = Some d -> d.1 = c.2).
Proof.
  induction chunks as [|x chunks IH]; intros p i c Hch Hi; [done|].
  inversion Hch as [|p' e rest He Hb Hrest]; subst.
  destruct i as [|i]; simpl in Hi.
  - injection Hi as <-. simpl. repeat split; try lia; try done.
    intros d Hd. simpl in Hd. destruct chunks as [|y chunks]; [done|].
    injection Hd as <-. by inversion Hrest.
  - destruct (IH _ _ _ Hrest Hi) as (H1 & H2 & H3 & _ & H5).
    repeat split; try lia; try done.
Qed.

(** The plan before its last end is set: a chain of [numWorkers] chunks from
    0, of which calculateChunks moves the end of the last to [fileSize]. *)
Lemma calculateChunks_shape data numWorkers :
  1 <= numWorkers -> len data < 2 ^ 62 ->
  exists chunks c,
    let k := Z.to_nat (numWorkers - 1) in
    calculateChunks data (len data) numWorkers = Ok (<[k:=(c.1, len data)]> chunks)
    /\ Z.of_nat (length chunks) = numWorkers
    /\ chunks !! k = Some c
    /\ chain data (len data) 0 chunks.
Proof.
  intros HW Hfit. pose proof (len_nonneg data) as Hlen.
  unfold calculateChunks.
  destruct (numWorkers <? 0) eqn:E1; [lia|]. destruct (numWorkers =? 0) eqn:E2; [lia|].
  clear E1 E2.
  assert (0 <= Z.quot (len data) numWorkers <= len data) as Hq.
  { split; [apply Z.quot_pos; lia|].
    rewrite Z.quot_div_nonneg by lia.
    apply Z.div_le_upper_bound; nia. }
  rewrite (wrap64_small (Z.quot _ _)) by lia.
  destruct (planLoop_chain data (Z.quot (len data) numWorkers) (Z.to_nat numWorkers) 0)
    as (chunks & -> & Hn & Hchain); try lia.
  cbn [mbind outcome_bind].
  assert (Z.to_nat (numWorkers - 1) < length chunks)%nat as Hk by lia.
  destruct (lookup_lt_is_Some_2 chunks _ Hk) as [c Hc]. rewrite Hc.
  exists chunks, c. repeat split; try done. lia.
Qed.

(** C3: for a file of any length [S] (below 2^62, so that [start + chunkSize]
    is an int64) and any worker count [W >= 1], calculateChunks returns
    exactly [W] chunks; the first starts at 0, the last ends at [S], each
    starts where the previous one ends and ends no earlier than it starts,
    and every end of a chunk but the last that is neither 0 nor [S] stands just
    after a newline. *)
Theorem calculateChunks_partition data numWorkers :
  1 <= numWorkers -> len data < 2 ^ 62 ->
  exists chunks,
    calculateChunks data (len data) numWorkers = Ok chunks
    /\ Z.of_nat (length chunks) = numWorkers
    /\ (exists c, chunks !! 0%nat = Some c /\ c.1 = 0)
    /\ (exists c, last chunks = Some c /\ c.2 = len data)
    /\ contiguous chunks
    /\ (forall c, c ∈ chunks -> 0 <= c.1 /\ c.1 <= c.2 /\ c.2 <= len data)
    /\ (forall i c, chunks !! i = Some c -> (S i < length chunks)%nat ->
          c.2 <> 0 -> c.2 <> len data -> index data (c.2 - 1) = newline).
Proof.
  intros HW Hfit.
  destruct (calculateChunks_shape data numWorkers HW Hfit)
    as (chunks & c & Hplan & Hn & Hc & Hchain).
  cbv zeta in Hplan. set (k := Z.to_nat (numWorkers - 1)) in *.
  assert (k < length chunks)%nat as Hk by lia.
  eexists. split; [exact Hplan|].
  assert (Hlook : forall i d, <[k:=(c.1, len data)]> chunks !! i = Some d ->
            exists d0, chunks !! i = Some d0 /\ d.1 = d0.1
                       /\ (i <> k -> d = d0) /\ (i = k -> d.2 = len data)).
  { intros i d Hd. destruct (decide (i = k)) as [->|Hne].
    - rewrite list_lookup_insert_eq in Hd by done. injection Hd as <-.
      exists c. repeat split; done.
    - rewrite list_lookup_insert_ne in Hd by done.
      exists d. repeat split; done. }
  split; [rewrite length_insert; lia|].
  split.
  { destruct (lookup_lt_is_Some_2 (<[k:=(c.1, len data)]> chunks) 0) as [d Hd].
    { rewrite length_insert. lia. }
    exists d. split; [done|].
    destruct (Hlook _ _ Hd) as (d0 & Hd0 & -> & _).
    by apply (chain_lookup _ _ _ _ _ _ Hchain Hd0). }
  split.
  { exists (c.1, len data). split; [|done].
    rewrite last_lookup, length_insert.
    replace (pred (length chunks)) with k by lia.
    by apply list_lookup_insert_eq. }
  split.
  { intros i x y Hx Hy.
    destruct (Hlook _ _ Hx) as (x0 & Hx0 & Hx1 & Hx2 & _).
    destruct (Hlook _ _ Hy) as (y0 & Hy0 & -> & _).
    assert (i <> k) as Hik.
    { apply lookup_lt_Some in Hy0. lia. }
    rewrite (Hx2 Hik).
    by apply (chain_lookup _ _ _ _ _ _ Hchain Hx0). }
  split.
  { intros x [i Hx]%list_elem_of_lookup.
    destruct (Hlook _ _ Hx) as (x0 & Hx0 & Hx1 & Hx2 & Hx3).
    destruct (chain_lookup _ _ _ _ _ _ Hchain Hx0) as (H1 & H2 & _).
    destruct (decide (i = k)) as [Hik|Hik].
    - rewrite (Hx3 Hik). lia.
    - rewrite (Hx2 Hik). lia. }
  intros i x Hx Hi Hz Hs. rewrite length_insert in Hi.
  destruct (Hlook _ _ Hx) as (x0 & Hx0 & _ & Hx2 & _).
  assert (i <> k) as Hik by lia. rewrite (Hx2 Hik) in Hz, Hs |- *.
  destruct (chain_lookup _ _ _ _ _ _ Hchain Hx0) as (_ & _ & [?|?] & _); done.
Qed.

Lemma calculateChunks_partition_witness :
  1 <= 2 /\ len threeLines < 2 ^ 62
  /\ exists chunks,
    calculateChunks threeLines (len threeLines) 2 = Ok chunks
    /\ Z.of_nat (length chunks) = 2
    /\ (exists c, chunks !! 0%nat = Some c /\ c.1 = 0)
    /\ (exists c, last chunks = Some c /\ c.2 = len threeLines)
    /\ contiguous chunks
    /\ (forall c, c ∈ chunks -> 0 <= c.1 /\ c.1 <= c.2 /\ c.2 <= len threeLines)
    /\ (forall i c, chunks !! i = Some c -> (S i < length chunks)%nat ->
          c.2 <> 0 -> c.2 <> len threeLines -> index threeLines (c.2 - 1) = newline).
Proof.
  split; [lia|]. split; [reflexivity|].
  apply (calculateChunks_partition threeLines 2); [lia|reflexivity].
Defined.

(** The chunks of a plan lie within the file. *)
Lemma calculateChunks_in_range data numWorkers chunks c :
  1 <= numWorkers -> len data < 2 ^ 62 ->
  calculateChunks data (len data) numWorkers = Ok chunks ->
  c ∈ chunks -> 0 <= c.1 /\ c.1 <= c.2 /\ c.2 <= len data.
Proof.
  intros HW Hfit Hplan [i Hi]%list_elem_of_lookup.
  destruct (calculateChunks_shape data numWorkers HW Hfit)
    as (chunks0 & c0 & Hplan' & Hn & Hc0 & Hchain).
  cbv zeta in Hplan'. rewrite Hplan in Hplan'. injection Hplan' as ->.
  destruct (chain_lookup _ _ _ _ _ _ Hchain Hc0) as (? & ? & _).
  destruct (decide (i = Z.to_nat (numWorkers - 1))) as [->|Hne].
  - rewrite list_lookup_insert_eq in Hi by (apply lookup_lt_Some in Hc0; lia).
    injection Hi as <-. simpl. lia.
  - rewrite list_lookup_insert_ne in Hi by done.
    destruct (chain_lookup _ _ _ _ _ _ Hchain Hi) as (? & ? & _). lia.
Qed.

(** ** The merge *)

(** What the merge loop does with one entry: a station not yet in
    [finalStats] is added, and one already there is left as it is. *)
Lemma mergeEntry_union finalStats station stats :
  mergeEntry finalStats (station, stats) = finalStats ∪ {[station := stats]}.
Proof.
  unfold mergeEntry. apply map_eq. intros k.
  destruct (finalStats !! station) as [existing|] eqn:He.
  - rewrite lookup_union. destruct (decide (station = k)) as [<-|Hne].
    + rewrite He, lookup_singleton_eq. done.
    + rewrite lookup_singleton_ne by done. by destruct (finalStats !! k).
  - rewrite lookup_union, lookup_insert. destruct (decide (station = k)) as [<-|Hne].
    + rewrite He, lookup_singleton_eq. done.
    + rewrite lookup_singleton_ne by done. by destruct (finalStats !! k).
Qed.

Lemma mergeEntries_union finalStats entries :
  mergeEntries finalStats entries = finalStats ∪ list_to_map entries.
Proof.
  unfold mergeEntries. revert finalStats.
  induction entries as [|[k v] entries IH]; intros finalStats.
  - simpl. by rewrite (right_id_L ∅ (∪)).
  - cbn [foldl]. rewrite IH, mergeEntry_union, <- (assoc_L (∪)).
    by rewrite <- insert_union_singleton_l.
Qed.

(** Whatever the order of the range over a worker's map, the merge of that
    map is the union that keeps the entries [finalStats] already has. *)
Lemma mergeEntries_rangeOrder finalStats workerResult entries :
  rangeOrder workerResult entries ->
  mergeEntries finalStats entries = finalStats ∪ workerResult.
Proof.
  unfold rangeOrder. intros Hperm. rewrite mergeEntries_union. f_equal.
  rewrite <- (list_to_map_to_list workerResult).
  apply list_to_map_proper; [|done].
  rewrite Hperm. apply NoDup_fst_map_to_list.
Qed.

Lemma mergeWorker_union finalStats workerResult :
  mergeWorker finalStats workerResult = finalStats ∪ workerResult.
Proof. apply mergeEntries_rangeOrder. by unfold rangeOrder. Qed.

Lemma mergeAny_foldl results : forall finalStats finalStats',
  mergeAny results finalStats finalStats' ->
  finalStats' = foldl mergeWorker finalStats results.
Proof.
  induction results as [|r results IH]; intros fs fs' H; inversion H; subst; simpl.
  - done.
  - rewrite mergeWorker_union.
    erewrite <- mergeEntries_rangeOrder by done. by apply IH.
Qed.

Lemma mergeAny_mergeWorker results : forall finalStats,
  mergeAny results finalStats (foldl mergeWorker finalStats results).
Proof.
  induction results as [|r results IH]; intros fs; simpl; [constructor|].
  econstructor; [by unfold rangeOrder|]. apply IH.
Qed.

(** ** The chunk scanner *)

Lemma valueEnd_ge rest i : i <= valueEnd rest i.
Proof.
  revert i. induction rest as [|c rest IH]; intros i; simpl; [lia|].
  destruct (Ascii.eqb c newline); [lia|]. specialize (IH (i + 1)). lia.
Qed.

Lemma valueEnd_value v rest i :
  hasByte newline v = false -> endsValue rest = true ->
  valueEnd (v +:+ rest) i = i + len v.
Proof.
  revert i. induction v as [|c v IH]; intros i; simpl.
  - intros _ Hr. rewrite len_empty. destruct rest as [|c rest]; simpl; [lia|].
    simpl in Hr. rewrite Hr. lia.
  - intros [Hc Hv]%orb_false_iff Hr. rewrite Hc, IH by done.
    rewrite len_String. lia.
Qed.

(** One iteration on a line: the key is everything up to the first
    semicolon of what is left of the chunk, the value what follows up to the
    next newline or the end of the chunk. *)
Lemma scanLoop_line fuel data i end_ stats key value rest :
  sliceOk data i end_ = true ->
  slice data i end_ = key +:+ String semicolon (value +:+ rest) ->
  hasByte semicolon key = false ->
  hasByte newline value = false ->
  endsValue rest = true ->
  scanLoop (S fuel) data i end_ stats
  = match parseTemp value with
    | None => Err (MalformedNumber value)
    | Some temp =>
        scanLoop fuel data (i + len key + 1 + len value + terminatorLen rest) end_
          (observe stats key temp)
    end.
Proof.
  intros Hok Hs Hk Hv Hr.
  pose proof (len_slice _ _ _ Hok) as Hl.
  rewrite Hs, len_app, len_String, len_app in Hl.
  pose proof (len_nonneg key). pose proof (len_nonneg value). pose proof (len_nonneg rest).
  pose proof Hok as (Hlo & Hmid & Hhi)%sliceOk_spec.
  cbn [scanLoop]. rewrite Hok.
  destruct (i <? end_) eqn:Hlt; [|lia].
  rewrite Hs, readName_key by done.
  rewrite len_app, len_String, len_app.
  destruct (len key =? _) eqn:Hbrk; [lia|]. clear Hbrk.
  assert (Hs' : slice data i end_ = (key +:+ String semicolon "") +:+ (value +:+ rest)).
  { rewrite Hs, app_assoc_s. done. }
  assert (Hi1 : i + (len key + 1) = i + len (key +:+ String semicolon "")).
  { rewrite len_app, len_String, len_empty. lia. }
  assert (Hrest : slice data (i + (len key + 1)) end_ = value +:+ rest).
  { rewrite Hi1. by apply (slice_after_prefix _ _ _ _ _ Hok Hs'). }
  assert (Hok1 : sliceOk data (i + (len key + 1)) end_ = true).
  { apply sliceOk_spec. lia. }
  rewrite Hrest, valueEnd_value by done.
  rewrite (slice_prefix _ _ _ _ _ Hok1 Hrest).
  destruct (parseTemp value) as [temp|]; [|done].
  f_equal. destruct rest as [|c rest].
  - rewrite len_empty in Hl. simpl terminatorLen.
    rewrite (proj2 (Z.ltb_ge (i + (len key + 1) + len value) end_)) by lia. simpl. lia.
  - simpl in Hr. rewrite len_String in Hl. simpl terminatorLen.
    pose proof (len_nonneg rest).
    rewrite (proj2 (Z.ltb_lt (i + (len key + 1) + len value) end_)) by lia.
    rewrite (index_after_prefix _ _ _ _ _ _ Hok1 Hrest), Hr. simpl. lia.
Qed.

(** The fuel of [scanLoop] is only a bound on the iterations: from [end - i]
    on, more fuel changes nothing. *)
Lemma scanLoop_fuel data end_ f1 : forall f2 i stats,
  (Z.to_nat (end_ - i) <= f1)%nat -> (Z.to_nat (end_ - i) <= f2)%nat ->
  scanLoop f1 data i end_ stats = scanLoop f2 data i end_ stats.
Proof.
  induction f1 as [|f1 IH]; intros [|f2] i stats H1 H2; cbn [scanLoop]; try done.
  - destruct (i <? end_) eqn:E; [lia|done].
  - destruct (i <? end_) eqn:E; [lia|done].
  - destruct (i <? end_) eqn:E; [|done].
    destruct (sliceOk data i end_); [|done].
    destruct (len _ =? len _); [done|].
    destruct (parseTemp _); [|done].
    set (name := readNameUntilSemicolon _).
    pose proof (len_nonneg name) as Hn.
    pose proof (valueEnd_ge (slice data (i + (len name + 1)) end_) (i + (len name + 1))) as Hv.
    apply IH; destruct (_ && _); lia.
Qed.

(** Where no semicolon is left, the scan stops with what it has. *)
Lemma scanLoop_stop fuel data i end_ stats :
  0 <= i -> end_ <= len data ->
  hasByte semicolon (slice data i end_) = false ->
  scanLoop fuel data i end_ stats = Ok stats.
Proof.
  intros H0 H1 Hs. destruct fuel as [|fuel]; cbn [scanLoop]; [done|].
  destruct (i <? end_) eqn:E; [|done].
  assert (sliceOk data i end_ = true) as -> by (apply sliceOk_spec; lia).
  rewrite readName_whole by done. by rewrite Z.eqb_refl.
Qed.

(** A chunk within the file is scanned without a panic. *)
Lemma scanLoop_no_panic data end_ fuel : forall i stats,
  0 <= i -> end_ <= len data -> scanLoop fuel data i end_ stats <> Panic.
Proof.
  induction fuel as [|fuel IH]; intros i stats H0 H1; cbn [scanLoop]; [done|].
  destruct (i <? end_) eqn:E; [|done].
  assert (sliceOk data i end_ = true) as -> by (apply sliceOk_spec; lia).
  destruct (len _ =? len _); [done|].
  destruct (parseTemp _); [|done].
  set (name := readNameUntilSemicolon _).
  pose proof (len_nonneg name) as Hn.
  pose proof (valueEnd_ge (slice data (i + (len name + 1)) end_) (i + (len name + 1))) as Hv.
  apply IH; [destruct (_ && _); lia|done].
Qed.

(** The statistics of a list of lines: each value observed in turn. *)
Lemma linesText_cons kv lines :
  linesText (kv :: lines) = kv.1 +:+ String semicolon (kv.2 +:+ (nl +:+ linesText lines)).
Proof.
  simpl. unfold lineText.
  rewrite app_assoc_s. simpl. by rewrite app_assoc_s.
Qed.

Lemma len_linesText_cons kv lines :
  len (linesText (kv :: lines)) = len kv.1 + 1 + len kv.2 + 1 + len (linesText lines).
Proof.
  rewrite linesText_cons, len_app, len_String, len_app, len_app.
  change (len nl) with 1. lia.
Qed.

Ltac sassoc := repeat first [rewrite app_assoc_s | progress simpl].

Lemma scanLoop_lines data end_ lines : forall fuel i stats tail,
  sliceOk data i end_ = true ->
  slice data i end_ = linesText lines +:+ tail ->
  Forall scannable lines ->
  (Z.to_nat (end_ - i) <= fuel)%nat ->
  scanLoop fuel data i end_ stats
  = scanLoop fuel data (i + len (linesText lines)) end_ (observeLines stats lines).
Proof.
  induction lines as [|kv lines IH]; intros fuel i stats tail Hok Hs Hall Hfuel.
  - simpl. rewrite len_empty, Z.add_0_r. done.
  - inversion Hall as [|? ? (Hk & Hv & [temp Ht]) Hall']; subst.
    pose proof (len_slice _ _ _ Hok) as Hl.
    rewrite Hs, len_app, len_linesText_cons in Hl.
    pose proof (len_nonneg kv.1). pose proof (len_nonneg kv.2).
    pose proof (len_nonneg (linesText lines)). pose proof (len_nonneg tail).
    pose proof Hok as (Hlo & Hmid & Hhi)%sliceOk_spec.
    destruct fuel as [|fuel]; [lia|].
    assert (Hs' : slice data i end_
                  = kv.1 +:+ String semicolon (kv.2 +:+ (nl +:+ linesText lines +:+ tail))).
    { rewrite Hs, linesText_cons. by sassoc. }
    rewrite (scanLoop_line _ _ _ _ _ _ _ _ Hok Hs' Hk Hv eq_refl), Ht.
    simpl terminatorLen.
    assert (Hnext : slice data (i + len kv.1 + 1 + len kv.2 + 1) end_
                    = linesText lines +:+ tail).
    { replace (i + len kv.1 + 1 + len kv.2 + 1)
        with (i + len (kv.1 +:+ String semicolon (kv.2 +:+ nl))).
      - apply (slice_after_prefix _ _ _ _ _ Hok).
        rewrite Hs'. by sassoc.
      - rewrite len_app, len_String, len_app. change (len nl) with 1. lia. }
    rewrite (IH fuel _ _ tail); try done; [|apply sliceOk_spec; lia|lia].
    rewrite len_linesText_cons.
    replace (i + len kv.1 + 1 + len kv.2 + 1 + len (linesText lines))
      with (i + (len kv.1 + 1 + len kv.2 + 1 + len (linesText lines))) by lia.
    unfold observeLines at 2. simpl foldl. unfold observeLine at 2. rewrite Ht.
    apply scanLoop_fuel; lia.
Qed.

(** A chunk of well-formed lines, then bytes without a semicolon: the
    statistics of the lines, and no error. *)
Lemma processChunk_lines data chunk lines tail :
  sliceOk data chunk.1 chunk.2 = true ->
  slice data chunk.1 chunk.2 = linesText lines +:+ tail ->
  Forall scannable lines ->
  hasByte semicolon tail = false ->
  processChunk data chunk = Ok (observeLines ∅ lines).
Proof.
  intros Hok Hs Hall Htail. destruct chunk as [i end_]. simpl in *.
  unfold processChunk. simpl.
  rewrite (scanLoop_lines _ _ _ _ _ _ tail Hok Hs Hall) by lia.
  pose proof (len_slice _ _ _ Hok) as Hl. rewrite Hs, len_app in Hl.
  pose proof (len_nonneg (linesText lines)). pose proof (len_nonneg tail).
  pose proof Hok as (Hlo & Hmid & Hhi)%sliceOk_spec.
  apply scanLoop_stop; [lia|lia|].
  by rewrite (slice_after_prefix _ _ _ _ _ Hok Hs).
Qed.

(** A chunk of well-formed lines, then a line whose value parseTemp
    rejects: the error of that value. *)
Lemma processChunk_malformed data chunk lines key value rest :
  sliceOk data chunk.1 chunk.2 = true ->
  slice data chunk.1 chunk.2
  = linesText lines +:+ key +:+ String semicolon (value +:+ rest) ->
  Forall scannable lines ->
  hasByte semicolon key = false ->
  hasByte newline value = false ->
  endsValue rest = true ->
  parseTemp value = None ->
  processChunk data chunk = Err (MalformedNumber value).
Proof.
  intros Hok Hs Hall Hk Hv Hr Hp. destruct chunk as [i end_]. simpl in *.
  unfold processChunk. simpl.
  rewrite (scanLoop_lines _ _ _ _ _ _ _ Hok Hs Hall) by lia.
  pose proof (len_slice _ _ _ Hok) as Hl.
  rewrite Hs, len_app, len_app, len_String in Hl.
  pose proof (len_nonneg (linesText lines)). pose proof (len_nonneg key).
  pose proof (len_nonneg (value +:+ rest)).
  pose proof Hok as (Hlo & Hmid & Hhi)%sliceOk_spec.
  destruct (Z.to_nat (end_ - i)) as [|fuel] eqn:Hf; [lia|].
  rewrite (scanLoop_line _ _ _ _ _ key value rest); try done.
  - by rewrite Hp.
  - apply sliceOk_spec. lia.
  - apply (slice_after_prefix _ _ _ _ _ Hok Hs).
Qed.

Lemma processChunk_no_panic data c :
  0 <= c.1 -> c.2 <= len data -> processChunk data c <> Panic.
Proof. intros H0 H1. unfold processChunk. by apply scanLoop_no_panic. Qed.

(** C6: where the bytes from the scan position to the end of the chunk hold
    no semicolon (an empty chunk among them), the loop of processChunk stops
    there and returns the statistics it has, with no error; such a chunk
    scanned from its start gives the empty map, and merging the empty map,
    in whatever order it is ranged over, leaves [finalStats] as it was. *)
Theorem scan_stops_without_semicolon data i end_ :
  0 <= i -> end_ <= len data ->
  hasByte semicolon (slice data i end_) = false ->
  (forall fuel stats, scanLoop fuel data i end_ stats = Ok stats)
  /\ processChunk data (i, end_) = Ok ∅
  /\ (forall finalStats entries,
        rangeOrder (∅ : gmap string StationStats) entries ->
        mergeEntries finalStats entries = finalStats).
Proof.
  intros H0 H1 Hs. split; [|split].
  - intros fuel stats. by apply scanLoop_stop.
  - unfold processChunk. simpl. by apply scanLoop_stop.
  - intros fs entries Hr. rewrite (mergeEntries_rangeOrder _ _ _ Hr).
    by rewrite (right_id_L ∅ (∪)).
Qed.

Lemma scan_stops_without_semicolon_witness :
  (forall fuel stats, scanLoop fuel truncatedTail 7 10 stats = Ok stats)
  /\ processChunk truncatedTail (7, 10) = Ok ∅
  /\ (forall finalStats entries,
        rangeOrder (∅ : gmap string StationStats) entries ->
        mergeEntries finalStats entries = finalStats).
Proof.
  apply (scan_stops_without_semicolon truncatedTail 7 10); [lia|reflexivity|reflexivity].
Defined.

(** A chunk that ends in such bytes keeps what its lines gave, and an empty
    chunk gives the empty map. *)
Example truncated_chunk_keeps_lines :
  processChunk truncatedTail (0, 10)
  = Ok {[ "a" := {| Count := 1; Min := 1; Max := 1; Sum := 1 |} ]}
  /\ processChunk threeLines (21, 21) = Ok ∅
  /\ calculateChunks threeLines (len threeLines) 5
     = Ok [(0, 7); (7, 14); (14, 21); (21, 21); (21, 21)]
  /\ MustRun threeLines 5 = Ok ("{a=1.00/1.00/1.00}" +:+ nl).
Proof. repeat split; vm_compute; reflexivity. Qed.

(** C10: the key is looked for up to the end of the chunk, not of the line.
    At the start of a line without a semicolon that is followed, after its
    newline, by bytes [more] and then a semicolon, the loop of processChunk
    does not stop and reports nothing for that line: the key is the whole of
    [line], the newline and [more], and the bytes after the semicolon up to
    the next newline (or the end of the chunk) are parsed as its value. *)
Theorem key_spans_lines fuel data i end_ stats line more value rest :
  sliceOk data i end_ = true ->
  slice data i end_ = (line +:+ nl +:+ more) +:+ String semicolon (value +:+ rest) ->
  hasByte semicolon line = false ->
  hasByte semicolon more = false ->
  hasByte newline value = false ->
  endsValue rest = true ->
  readNameUntilSemicolon (slice data i end_) = line +:+ nl +:+ more
  /\ scanLoop (S fuel) data i end_ stats
     = match parseTemp value with
       | None => Err (MalformedNumber value)
       | Some temp =>
           scanLoop fuel data
             (i + len (line +:+ nl +:+ more) + 1 + len value + terminatorLen rest) end_
             (observe stats (line +:+ nl +:+ more) temp)
       end.
Proof.
  intros Hok Hs Hl Hm Hv Hr.
  assert (hasByte semicolon (line +:+ nl +:+ more) = false) as Hk.
  { rewrite !hasByte_app, Hl, Hm. reflexivity. }
  split.
  - rewrite Hs. by apply readName_key.
  - by apply scanLoop_line.
Qed.

Lemma key_spans_lines_witness :
  readNameUntilSemicolon (slice ("abc" +:+ nl +:+ "x;1.00" +:+ nl) 0 11)
  = "abc" +:+ nl +:+ "x"
  /\ scanLoop 11 ("abc" +:+ nl +:+ "x;1.00" +:+ nl) 0 11 ∅
     = match parseTemp "1.00" with
       | None => Err (MalformedNumber "1.00")
       | Some temp =>
           scanLoop 10 ("abc" +:+ nl +:+ "x;1.00" +:+ nl)
             (0 + len ("abc" +:+ nl +:+ "x") + 1 + len "1.00" + terminatorLen nl) 11
             (observe ∅ ("abc" +:+ nl +:+ "x") temp)
       end.
Proof.
  apply (key_spans_lines 10 ("abc" +:+ nl +:+ "x;1.00" +:+ nl) 0 11 ∅ "abc" "x" "1.00" nl);
    reflexivity.
Defined.

(** The same on a whole chunk: one entry, under a key of two lines. *)
Example key_spans_lines_chunk :
  processChunk ("abc" +:+ nl +:+ "x;1.00" +:+ nl) (0, 11)
  = Ok {[ "abc" +:+ nl +:+ "x" := {| Count := 1; Min := 1; Max := 1; Sum := 1 |} ]}.
Proof. vm_compute. reflexivity. Qed.

(** ** The order of the names *)

Lemma strLtb_trichotomy a : forall b,
  strLtb a b = false -> strLtb b a = false -> a = b.
Proof.
  induction a as [|x a IH]; intros [|y b]; simpl; try done.
  destruct (byte x <? byte y) eqn:E1; [done|].
  destruct (byte y <? byte x) eqn:E2; [done|].
  intros H1 H2. assert (x = y) as -> by (apply byte_inj; lia).
  f_equal. by apply IH.
Qed.

Lemma strLtb_asym a : forall b, strLtb a b = true -> strLtb b a = false.
Proof.
  induction a as [|x a IH]; intros [|y b]; simpl; try done.
  destruct (byte x <? byte y) eqn:E1.
  - intros _. destruct (byte y <? byte x) eqn:E2; [lia|done].
  - destruct (byte y <? byte x) eqn:E2; [done|]. apply IH.
Qed.

Lemma strLtb_trans a : forall b c,
  strLtb a b = true -> strLtb b c = true -> strLtb a c = true.
Proof.
  induction a as [|x a IH]; intros [|y b] [|z c]; simpl; try done.
  destruct (byte x <? byte y) eqn:E1.
  - destruct (byte y <? byte z) eqn:E2.
    + intros _ _. by destruct (byte x <? byte z) eqn:E3; [|lia].
    + destruct (byte z <? byte y) eqn:E3; [done|]. intros _ H.
      by destruct (byte x <? byte z) eqn:E4; [|lia].
  - destruct (byte y <? byte x) eqn:E2; [done|].
    destruct (byte y <? byte z) eqn:E3.
    + intros _ _. by destruct (byte x <? byte z) eqn:E4; [|lia].
    + destruct (byte z <? byte y) eqn:E4; [done|]. intros H1 H2.
      destruct (byte x <? byte z) eqn:E5; [done|].
      destruct (byte z <? byte x) eqn:E6; [lia|]. by apply (IH b).
Qed.

#[global] Instance strLe_total : Total strLe.
Proof.
  intros a b. unfold strLe.
  destruct (strLtb b a) eqn:E; [right; by apply strLtb_asym|by left].
Qed.

#[global] Instance strLe_antisym : AntiSymm (=) strLe.
Proof. intros a b H1 H2. by apply strLtb_trichotomy. Qed.

#[global] Instance strLe_trans : Transitive strLe.
Proof.
  intros a b c. unfold strLe. intros H1 H2.
  destruct (strLtb c a) eqn:E; [|done].
  destruct (strLtb b c) eqn:E2.
  - by rewrite (strLtb_trans _ _ _ E2 E) in H1.
  - assert (b = c) as -> by (by apply strLtb_trichotomy). congruence.
Qed.

(** [sort.Strings] does not depend on the order it is handed the names in:
    there is one sorted arrangement of them. *)
Lemma sortStrings_perm names names' :
  names ≡ₚ names' -> sortStrings names = sortStrings names'.
Proof.
  intros H. unfold sortStrings.
  apply (Sorted_unique strLe); try apply Sorted_merge_sort; try apply _.
  by rewrite !merge_sort_Permutation.
Qed.

Lemma printResultsFrom_perm names stats :
  names ≡ₚ (map_to_list stats).*1 -> printResultsFrom names stats = printResults stats.
Proof.
  intros H. unfold printResults, printResultsFrom. by rewrite (sortStrings_perm _ _ H).
Qed.

(** ** Runs *)

Lemma collect_Ok {A B} (f : A -> outcome B) l : forall rs,
  collect (map f l) = Ok rs <-> Forall2 (fun c r => f c = Ok r) l rs.
Proof.
  induction l as [|c l IH]; intros rs; simpl.
  - split; [intros [= <-]; constructor|intros H; by inversion H].
  - destruct (f c) as [r| |] eqn:Hc; cbn [mbind outcome_bind].
    + destruct (collect (map f l)) as [rs'| |] eqn:Hl; cbn [mbind outcome_bind].
      * split.
        -- intros [= <-]. constructor; [done|]. by apply IH.
        -- intros H. inversion H as [|? r' ? rs'' Hr Hrs]; subst.
           apply IH in Hrs. congruence.
      * split; [done|]. intros H. inversion H as [|? r' ? rs'' Hr Hrs]; subst.
        apply IH in Hrs. done.
      * split; [done|]. intros H. inversion H as [|? r' ? rs'' Hr Hrs]; subst.
        apply IH in Hrs. done.
    + split; [done|]. intros H. inversion H; congruence.
    + split; [done|]. intros H. inversion H; congruence.
Qed.

Lemma collect_Err {A B} (f : A -> outcome B) l e :
  collect (map f l) = Err e -> exists c, c ∈ l /\ f c = Err e.
Proof.
  induction l as [|c l IH]; simpl; [done|].
  destruct (f c) as [r| |] eqn:Hc; cbn [mbind outcome_bind].
  - destruct (collect (map f l)) as [rs'| |] eqn:Hl; cbn [mbind outcome_bind]; try done.
    intros [= <-]. destruct IH as (c' & Hin & Hc'); [done|].
    exists c'. split; [by right|done].
  - intros [= <-]. exists c. split; [by left|done].
  - done.
Qed.

Lemma collect_Panic {A B} (f : A -> outcome B) l :
  collect (map f l) = Panic -> exists c, c ∈ l /\ f c = Panic.
Proof.
  induction l as [|c l IH]; simpl; [done|].
  destruct (f c) as [r| |] eqn:Hc; cbn [mbind outcome_bind].
  - destruct (collect (map f l)) as [rs'| |] eqn:Hl; cbn [mbind outcome_bind]; try done.
    intros _. destruct IH as (c' & Hin & Hc'); [done|].
    exists c'. split; [by right|done].
  - done.
  - intros _. exists c. split; [by left|done].
Qed.

Lemma planLoop_not_Err n data fileSize chunkSize : forall pos e,
  planLoop n data fileSize chunkSize pos <> Err e.
Proof.
  induction n as [|n IH]; intros pos e; cbn [planLoop]; [done|].
  match goal with |- context [mbind _ ?m] => destruct m as [end1| |] eqn:Hm end;
    cbn [mbind outcome_bind]; try done.
  - destruct (planLoop n data fileSize chunkSize end1) as [rest| |] eqn:Hr;
      cbn [mbind outcome_bind]; try done.
    by apply IH in Hr.
  - repeat case_match; done.
Qed.

Lemma calculateChunks_not_Err data fileSize numWorkers e :
  calculateChunks data fileSize numWorkers <> Err e.
Proof.
  unfold calculateChunks. repeat case_match; try done.
  destruct (planLoop _ _ _ _ _) as [chunks| |] eqn:Hp; cbn [mbind outcome_bind]; try done.
  - by case_match.
  - by apply planLoop_not_Err in Hp.
Qed.

(** The run computed by [MustRun] is one of the runs. *)
Lemma MustRun_sound data numWorkers : MustRunAny data numWorkers (MustRun data numWorkers).
Proof.
  unfold MustRun. destruct (len data =? 0) eqn:Hlen.
  { apply run_mmap_failed. lia. }
  assert (len data <> 0) as Hne by lia.
  unfold finalStatsOf, scanChunks.
  destruct (calculateChunks data (len data) numWorkers) as [chunks|e|] eqn:Hplan;
    cbn [mbind outcome_bind].
  - destruct (collect (map (processChunk data) chunks)) as [results|e|] eqn:Hc;
      cbn [mbind outcome_bind].
    + apply collect_Ok in Hc.
      apply (run_printed _ _ chunks results); try done.
      apply mergeAny_mergeWorker.
    + apply collect_Err in Hc as (c & Hin & Hc).
      by apply (run_worker_error _ _ chunks c).
    + apply collect_Panic in Hc as (c & Hin & Hc).
      by apply (run_worker_panic _ _ chunks c).
  - by apply calculateChunks_not_Err in Hplan.
  - by apply run_plan_panic.
Qed.

Lemma Forall2_processChunk_Ok data chunks rs c :
  Forall2 (fun c r => processChunk data c = Ok r) chunks rs ->
  c ∈ chunks -> exists r, processChunk data c = Ok r.
Proof.
  intros H Hin. induction H as [|c' r chunks rs Hc H IH]; [by inversion Hin|].
  apply elem_of_cons in Hin as [->|Hin]; [by exists r|by apply IH].
Qed.

(** A run that prints, prints what [MustRun] computes. *)
Lemma MustRunAny_printed data numWorkers out :
  MustRunAny data numWorkers (Ok out) -> MustRun data numWorkers = Ok out.
Proof.
  intros H. inversion H as [| | | |chunks rs fs names Hne Hplan Hrs Hm Hn]; subst.
  unfold MustRun. destruct (len data =? 0) eqn:Hlen; [lia|].
  unfold finalStatsOf, scanChunks. rewrite Hplan. cbn [mbind outcome_bind].
  apply collect_Ok in Hrs. rewrite Hrs. cbn [mbind outcome_bind].
  apply mergeAny_foldl in Hm. subst fs.
  by rewrite (printResultsFrom_perm _ _ Hn).
Qed.

(** When [MustRun] prints, every run prints the same. *)
Lemma MustRun_Ok_all data numWorkers out :
  MustRun data numWorkers = Ok out ->
  forall o, MustRunAny data numWorkers o -> o = Ok out.
Proof.
  intros Hrun o Ho. unfold MustRun in Hrun.
  destruct (len data =? 0) eqn:Hlen; [done|].
  unfold finalStatsOf, scanChunks in Hrun.
  destruct (calculateChunks data (len data) numWorkers) as [chunks|e|] eqn:Hplan;
    cbn [mbind outcome_bind] in Hrun; try done.
  destruct (collect (map (processChunk data) chunks)) as [results|e|] eqn:Hc;
    cbn [mbind outcome_bind] in Hrun; try done.
  apply collect_Ok in Hc.
  inversion Ho as [|? ?|chunks' c ? Hplan' Hin Hp|chunks' c e ? Hplan' Hin Hp|]; subst.
  - lia.
  - congruence.
  - rewrite Hplan in Hplan'. injection Hplan' as <-.
    destruct (Forall2_processChunk_Ok _ _ _ _ Hc Hin) as [r Hr]. congruence.
  - rewrite Hplan in Hplan'. injection Hplan' as <-.
    destruct (Forall2_processChunk_Ok _ _ _ _ Hc Hin) as [r Hr]. congruence.
  - apply MustRunAny_printed in Ho. rewrite <- Ho. unfold MustRun.
    rewrite Hlen. unfold finalStatsOf, scanChunks. rewrite Hplan.
    cbn [mbind outcome_bind]. apply collect_Ok in Hc. rewrite Hc. done.
Qed.

(** Two runs on the same input with the same worker count leave the same
    bytes on stdout, and one prints exactly when the other does. *)
Lemma MustRunAny_stdout data numWorkers o1 o2 :
  MustRunAny data numWorkers o1 -> MustRunAny data numWorkers o2 ->
  stdout o1 = stdout o2 /\ (forall out, o1 = Ok out -> o2 = Ok out).
Proof.
  intros H1 H2. destruct o1 as [out1|e1|].
  - apply MustRunAny_printed in H1.
    rewrite (MustRun_Ok_all _ _ _ H1 _ H2). split; [done|]. by intros ? [= <-].
  - destruct o2 as [out2|e2|]; simpl; try done.
    apply MustRunAny_printed in H2.
    by pose proof (MustRun_Ok_all _ _ _ H2 _ H1).
  - destruct o2 as [out2|e2|]; simpl; try done.
    apply MustRunAny_printed in H2.
    by pose proof (MustRun_Ok_all _ _ _ H2 _ H1).
Qed.

(** C9: two runs on the same bytes with the same worker count leave the same
    bytes on stdout, and one prints exactly when the other does, whichever
    failing worker reports first and whatever the orders of the ranges over
    the maps: the merge of the workers' maps does not depend on those orders,
    and neither does the rendering, which sorts the names. *)
Theorem run_output_deterministic data numWorkers o1 o2 :
  MustRunAny data numWorkers o1 -> MustRunAny data numWorkers o2 ->
  stdout o1 = stdout o2
  /\ (forall out, o1 = Ok out -> o2 = Ok out)
  /\ (forall results finalStats f1 f2,
        mergeAny results finalStats f1 -> mergeAny results finalStats f2 -> f1 = f2)
  /\ (forall stats names names',
        names ≡ₚ names' -> printResultsFrom names stats = printResultsFrom names' stats).
Proof.
  intros H1 H2. destruct (MustRunAny_stdout _ _ _ _ H1 H2) as [Hout Hok].
  repeat split; try done.
  - intros results fs f1 f2 Hf1 Hf2.
    apply mergeAny_foldl in Hf1, Hf2. congruence.
  - intros stats names names' Hp. unfold printResultsFrom.
    by rewrite (sortStrings_perm _ _ Hp).
Qed.

Lemma run_output_deterministic_witness :
  stdout (Err (MalformedNumber "NaN")) = stdout (Err (MalformedNumber "xyz"))
  /\ (forall out, @Err string (MalformedNumber "NaN") = Ok out ->
                  @Err string (MalformedNumber "xyz") = Ok out)
  /\ (forall results finalStats f1 f2,
        mergeAny results finalStats f1 -> mergeAny results finalStats f2 -> f1 = f2)
  /\ (forall stats names names',
        names ≡ₚ names' -> printResultsFrom names stats = printResultsFrom names' stats).
Proof.
  apply (run_output_deterministic twoMalformed 3).
  - apply (run_worker_error twoMalformed 3 [(0, 6); (6, 12); (12, 12)] (0, 6));
      [discriminate | reflexivity | apply list_elem_of_here | reflexivity].
  - apply (run_worker_error twoMalformed 3 [(0, 6); (6, 12); (12, 12)] (6, 12));
      [discriminate | reflexivity | apply list_elem_of_further, list_elem_of_here
      | reflexivity].
Defined.

(** ** Malformed values *)

Lemma quoteBytes_plain s : plainText s = true -> quoteBytes s = Some s.
Proof.
  induction s as [|c s IH]; simpl; [done|].
  intros [Hc Hs]%andb_true_iff. rewrite (IH Hs).
  unfold plainByte in Hc. rewrite !andb_true_iff, !negb_true_iff in Hc.
  destruct Hc as [[[H1 H2] H3] H4]. unfold quoteByte.
  rewrite H3, H4. simpl orb. cbv iota.
  destruct (128 <=? byte c) eqn:E; [lia|].
  rewrite H1, H2. done.
Qed.

Lemma errorMessage_plain raw :
  plainText raw = true ->
  errorMessage (MalformedNumber raw)
  = Some ("malformed number: " +:+ String doubleQuote raw +:+ String doubleQuote "").
Proof.
  intros H. unfold errorMessage, quote. rewrite (quoteBytes_plain _ H). done.
Qed.

(** X21: when a chunk of the plan holds, after lines scanned without
    fault, a line whose value field does not begin with a string of the
    grammar, processChunk returns the error of that value; its text is
    [malformed number: ] and the value between double quotes when the value
    is printable ASCII without quote and backslash; and every run returns
    the error of a worker that failed and leaves nothing on stdout, whatever
    the other chunks hold. *)
Theorem malformed_value_fails_run data numWorkers chunks chunk lines key value rest :
  1 <= numWorkers -> len data < 2 ^ 62 ->
  calculateChunks data (len data) numWorkers = Ok chunks ->
  chunk ∈ chunks ->
  slice data chunk.1 chunk.2
  = linesText lines +:+ key +:+ String semicolon (value +:+ rest) ->
  Forall scannable lines ->
  hasByte semicolon key = false ->
  hasByte newline value = false ->
  endsValue rest = true ->
  ~ hasGrammarPrefix value ->
  processChunk data chunk = Err (MalformedNumber value)
  /\ (plainText value = true ->
      errorMessage (MalformedNumber value)
      = Some ("malformed number: " +:+ String doubleQuote value +:+ String doubleQuote ""))
  /\ (forall o, MustRunAny data numWorkers o ->
        stdout o = ""
        /\ exists c e, c ∈ chunks /\ processChunk data c = Err e /\ o = Err e).
Proof.
  intros HW Hfit Hplan Hin Hs Hall Hk Hv Hr Hg.
  assert (parseTemp value = None) as Hp.
  { destruct (parseTemp value) as [t|] eqn:Ht; [|done].
    exfalso. apply Hg, parseTemp_accepts_iff. by rewrite Ht. }
  destruct (calculateChunks_in_range _ _ _ _ HW Hfit Hplan Hin) as (H0 & H1 & H2).
  assert (sliceOk data chunk.1 chunk.2 = true) as Hok by (apply sliceOk_spec; lia).
  assert (processChunk data chunk = Err (MalformedNumber value)) as Herr.
  { by apply (processChunk_malformed _ _ lines key value rest). }
  split; [done|]. split; [apply errorMessage_plain|].
  intros o Ho.
  inversion Ho as [Hz|? Hpl|chunks' c ? Hpl Hc Hpanic|chunks' c e ? Hpl Hc He
                  |chunks' rs fs names ? Hpl Hrs]; subst.
  - pose proof (len_slice _ _ _ Hok) as Hl.
    rewrite Hs, !len_app, len_String in Hl.
    pose proof (len_nonneg (linesText lines)). pose proof (len_nonneg key).
    pose proof (len_nonneg (value +:+ rest)). lia.
  - congruence.
  - rewrite Hplan in Hpl. injection Hpl as <-.
    destruct (calculateChunks_in_range _ _ _ _ HW Hfit Hplan Hc) as (? & ? & ?).
    by apply processChunk_no_panic in Hpanic.
  - rewrite Hplan in Hpl. injection Hpl as <-. split; [done|]. by exists c, e.
  - rewrite Hplan in Hpl. injection Hpl as <-.
    destruct (Forall2_processChunk_Ok _ _ _ _ Hrs Hin) as [r Hr']. congruence.
Qed.

Lemma malformed_value_fails_run_witness :
  processChunk twoMalformed (6, 12) = Err (MalformedNumber "xyz")
  /\ (plainText "xyz" = true ->
      errorMessage (MalformedNumber "xyz")
      = Some ("malformed number: " +:+ String doubleQuote "xyz" +:+ String doubleQuote ""))
  /\ (forall o, MustRunAny twoMalformed 3 o ->
        stdout o = ""
        /\ exists c e, c ∈ [(0, 6); (6, 12); (12, 12)]
                       /\ processChunk twoMalformed c = Err e /\ o = Err e).
Proof.
  apply (malformed_value_fails_run twoMalformed 3 [(0, 6); (6, 12); (12, 12)] (6, 12)
           [] "b" "xyz" nl);
    [lia | reflexivity | reflexivity | apply list_elem_of_further, list_elem_of_here
    | reflexivity | constructor | reflexivity | reflexivity | reflexivity | ].
  intros Hg%parseTemp_accepts_iff. by destruct Hg.
Defined.

(** The text of the error holds the value as [%q] escapes it: for the value
    [NaN] followed by a carriage return, a backslash and an [r], not the
    value's own bytes. *)
Lemma malformed_message_escapes_value :
  matchesGrammar ("NaN" +:+ String carriageReturn "") = false
  /\ processChunk crlfMalformed (0, 14)
     = Err (MalformedNumber ("NaN" +:+ String carriageReturn ""))
  /\ MustRun crlfMalformed 1 = Err (MalformedNumber ("NaN" +:+ String carriageReturn ""))
  /\ errorMessage (MalformedNumber ("NaN" +:+ String carriageReturn ""))
     = Some ("malformed number: " +:+ String doubleQuote "NaN\r" +:+ String doubleQuote "")
  /\ contains ("malformed number: " +:+ String doubleQuote "NaN\r" +:+ String doubleQuote "")
       ("NaN" +:+ String carriageReturn "") = false.
Proof. repeat split; vm_compute; reflexivity. Qed.

(** C4: the value [1.234] is not of the grammar, and no run fails on the
    file [stationA;1.234]: parseTemp reads [1.23] and never looks at the
    [4] (the defect of C2), the worker returns statistics, and every run,
    with one worker or with two, prints the station and returns no error.
    The code does attempt what the claim says: on the file of the
    repository's test, whose value [NaN] parseTemp rejects, the run fails
    with the error of that value and prints nothing. *)
Lemma value_outside_grammar_is_printed :
  matchesGrammar "1.234" = false
  /\ processChunk ("stationA;1.234" +:+ nl) (0, 15)
     = Ok (observe ∅ "stationA" (PrimFloat.mul (F64.of_int 123) F64.hundredth))
  /\ (forall o, MustRunAny ("stationA;1.234" +:+ nl) 1 o ->
        o = Ok ("{stationA=1.23/1.23/1.23}" +:+ nl))
  /\ (forall o, MustRunAny ("stationA;1.234" +:+ nl) 2 o ->
        o = Ok ("{stationA=1.23/1.23/1.23}" +:+ nl))
  /\ matchesGrammar "NaN" = false
  /\ MustRun ("stationA;NaN" +:+ nl +:+ "stationB;20.00" +:+ nl
              +:+ "stationA;30.00" +:+ nl) 1
     = Err (MalformedNumber "NaN")
  /\ errorMessage (MalformedNumber "NaN")
     = Some ("malformed number: " +:+ String doubleQuote "NaN" +:+ String doubleQuote "").
Proof.
  repeat split; try (vm_compute; reflexivity);
    apply MustRun_Ok_all; vm_compute; reflexivity.
Qed.

(** ** The merge across chunks *)

(** C1: on three lines of one station, one worker and two workers end with
    different statistics and different output. With two workers the station
    is in both chunks, and the entry of the second chunk is dropped: the
    update of lines 125-128 is made on a copy. *)
Lemma merge_drops_later_chunks :
  calculateChunks threeLines (len threeLines) 2 = Ok [(0, 14); (14, 21)]
  /\ finalStatsOf threeLines 1
     = Ok {[ "a" := {| Count := 3; Min := 1; Max := 3; Sum := 6 |} ]}
  /\ finalStatsOf threeLines 2
     = Ok {[ "a" := {| Count := 2; Min := 1; Max := 2; Sum := 3 |} ]}
  /\ (forall o, MustRunAny threeLines 1 o -> o = Ok ("{a=1.00/2.00/3.00}" +:+ nl))
  /\ (forall o, MustRunAny threeLines 2 o -> o = Ok ("{a=1.00/1.50/2.00}" +:+ nl)).
Proof.
  repeat split; try (vm_compute; reflexivity);
    apply MustRun_Ok_all; vm_compute; reflexivity.
Qed.

(** C5: the scenario is rendered as expected by one and by two workers, and
    not by three: stationA is then in two chunks, and its value 30.00 is
    lost in the merge. Every run with three workers prints the same. *)
Lemma scenario_three_workers :
  MustRun scenario 1 = Ok scenarioOutput
  /\ MustRun scenario 2 = Ok scenarioOutput
  /\ calculateChunks scenario (len scenario) 3 = Ok [(0, 30); (30, 60); (60, 60)]
  /\ forall o, MustRunAny scenario 3 o ->
       o = Ok ("{stationA=10.00/10.00/10.00, stationB=20.00/20.00/20.00, stationC=-1.00/-1.00/-1.00}"
               +:+ nl).
Proof.
  repeat split; try (vm_compute; reflexivity).
  apply MustRun_Ok_all. vm_compute. reflexivity.
Qed.

(** * Further properties of the code *)

(** ** parseTemp *)

(** The value read from the digits, whatever follows them. *)
Lemma parseCases_value p rest neg :
  unsignedForm p = true ->
  parseCases (p +:+ rest) 0 neg
  = Some (scaledFloat (if neg then - unsignedScaled p else unsignedScaled p)).
Proof.
  intros H. unfold scaledFloat.
  destruct p as [|a [|b [|c [|d [|e [|f [|g p]]]]]]]; try discriminate H.
  - simpl in H. split_andb H.
    simpl String.append. unfold parseCases, digitAt. len_norm. ltb_decide.
    index_eval. use_dots. parse_digits. simpl orb. cbv iota beta zeta.
    unwrap32. rewrite scaled_exact by lia. simpl unsignedScaled.
    destruct neg; reflexivity.
  - simpl in H. assert (Hb : isDot b = false).
    { destruct (isDot b) eqn:Hb; [|done]. apply isDot_not_digit in Hb.
      rewrite Hb in H. rewrite !andb_false_r in H. simpl in H. discriminate. }
    split_andb H.
    simpl String.append. unfold parseCases, digitAt. len_norm. ltb_decide.
    index_eval. unfold isDot in Hb. rewrite Hb. use_dots. parse_digits.
    simpl orb. simpl andb. cbv iota beta zeta.
    unwrap32. rewrite scaled_exact by lia. simpl unsignedScaled.
    destruct neg; reflexivity.
  - simpl in H.
    assert (Hb : isDot b = false /\ isDot c = false).
    { split.
      - destruct (isDot b) eqn:Hb; [|done]. apply isDot_not_digit in Hb.
        rewrite Hb in H. rewrite !andb_false_r in H. simpl in H. discriminate.
      - destruct (isDot c) eqn:Hb; [|done]. apply isDot_not_digit in Hb.
        rewrite Hb in H. rewrite !andb_false_r in H. simpl in H. discriminate. }
    destruct Hb as [Hb Hc]. split_andb H.
    simpl String.append. unfold parseCases, digitAt. len_norm. ltb_decide.
    index_eval. unfold isDot in Hb, Hc. rewrite Hb, Hc. use_dots. parse_digits.
    simpl orb. simpl andb. cbv iota beta zeta.
    unwrap32. rewrite scaled_exact by lia. simpl unsignedScaled.
    destruct neg; reflexivity.
Qed.

Lemma unsignedScaled_range p : unsignedForm p = true -> 0 <= unsignedScaled p <= 99999.
Proof. intros H. by destruct (parseTemp_unsigned p H) as (_ & _ & ?). Qed.

(** parseTemp on a string that begins with a string [p] of the grammar. *)
Lemma parseTemp_prefix_value p rest :
  matchesGrammar p = true ->
  parseTemp (p +:+ rest) = Some (scaledFloat (scaledValue p)).
Proof.
  intros Hp. unfold matchesGrammar in Hp. unfold scaledValue.
  destruct p as [|c r]; [discriminate|].
  destruct (Ascii.eqb c minus) eqn:Hc.
  - apply Ascii.eqb_eq in Hc. subst c.
    destruct (unsignedForm_first _ Hp) as (a & r' & -> & Ha & Hl).
    unfold parseTemp. simpl String.append. rewrite index_0, Ascii.eqb_refl.
    rewrite !len_String, len_app in *. pose proof (len_nonneg r').
    pose proof (len_nonneg rest). ltb_decide. simpl andb. cbv iota.
    change (String minus (String a (r' +:+ rest)))
      with (String minus (String a r' +:+ rest)).
    rewrite parseCases_shift. by apply parseCases_value.
  - destruct (unsignedForm_first _ Hp) as (a & r' & [= <- <-] & Ha & Hl).
    unfold parseTemp. simpl String.append. rewrite index_0, Hc.
    rewrite !len_String, len_app in *. pose proof (len_nonneg r).
    pose proof (len_nonneg rest). ltb_decide. simpl andb. cbv iota.
    change (String c (r +:+ rest)) with (String c r +:+ rest).
    by apply (parseCases_value _ _ false).
Qed.

Lemma scaledValue_range p : matchesGrammar p = true -> - 99999 <= scaledValue p <= 99999.
Proof.
  intros Hp. unfold matchesGrammar in Hp. unfold scaledValue.
  destruct p as [|c r]; [discriminate|].
  destruct (Ascii.eqb c minus); apply unsignedScaled_range in Hp; lia.
Qed.

Lemma app_empty_r_s (a : string) : a +:+ "" = a.
Proof. induction a as [|x a IH]; simpl; [done|]. by rewrite IH. Qed.

(** X1: what follows a string of the grammar is not read: parseTemp gives
    the string with any bytes after it the value it gives the string. *)
Theorem parseTemp_ignores_trailing_bytes p rest :
  matchesGrammar p = true -> parseTemp (p +:+ rest) = parseTemp p.
Proof.
  intros Hp. rewrite (parseTemp_prefix_value p rest Hp).
  rewrite <- (app_empty_r_s p) at 2. by rewrite (parseTemp_prefix_value p "" Hp).
Qed.

Lemma parseTemp_ignores_trailing_bytes_witness :
  matchesGrammar "-12.50" = true
  /\ parseTemp ("-12.50" +:+ String carriageReturn "") = parseTemp "-12.50".
Proof.
  split; [reflexivity|].
  apply (parseTemp_ignores_trailing_bytes "-12.50" (String carriageReturn "")).
  reflexivity.
Defined.

(** X2: whatever parseTemp accepts begins with a string of the grammar, and
    the value returned is [float64(v) * 0.01] for the scaled integer [v] of
    that string, between -99999 and 99999: no input makes the int32
    arithmetic wrap. *)
Theorem parseTemp_value_of_prefix b t :
  parseTemp b = Some t ->
  exists p rest,
    b = p +:+ rest /\ matchesGrammar p = true
    /\ t = scaledFloat (scaledValue p)
    /\ - 99999 <= scaledValue p <= 99999.
Proof.
  intros Ht. assert (is_Some (parseTemp b)) as Hs by eauto.
  apply parseTemp_accepts_iff in Hs as (p & rest & -> & Hp).
  exists p, rest. repeat split; try done.
  - rewrite (parseTemp_prefix_value p rest Hp) in Ht. congruence.
  - by apply scaledValue_range.
  - by apply scaledValue_range.
Qed.

Lemma parseTemp_value_of_prefix_witness :
  parseTemp "7.25xyz" = Some (scaledFloat 725)
  /\ exists p rest,
    "7.25xyz" = p +:+ rest /\ matchesGrammar p = true
    /\ scaledFloat 725 = scaledFloat (scaledValue p)
    /\ - 99999 <= scaledValue p <= 99999.
Proof.
  split; [reflexivity|].
  apply (parseTemp_value_of_prefix "7.25xyz" (scaledFloat 725)). reflexivity.
Defined.

Lemma allFrom_spec fuel : forall v P,
  allFrom fuel v P = true ->
  forall w, v <= w < v + Z.of_nat fuel -> P w = true.
Proof.
  induction fuel as [|fuel IH]; intros v P H w Hw; [lia|].
  cbn [allFrom] in H. destruct (P v) eqn:Hv; [|done].
  destruct (decide (w = v)) as [->|Hne]; [done|].
  apply (IH (v + 1) P H). lia.
Qed.

Lemma roundShift_eq m e : roundShift m e = roundHundredths m e.
Proof.
  unfold roundShift, roundHundredths. destruct (0 <=? e) eqn:He; [done|].
  apply Z.leb_gt in He. cbv zeta.
  rewrite Z.shiftr_div_pow2, Z.land_ones, Z.shiftl_1_l by lia. done.
Qed.

(** Checked by running it on each of the 199999 scaled integers. *)
Lemma checked_all : allFrom (Z.to_nat 199999) (- 99999) checked = true.
Proof. vm_cast_no_check (eq_refl true). Qed.

Lemma checked_range v : - 99999 <= v <= 99999 -> checked v = true.
Proof. intros Hv. apply (allFrom_spec _ _ _ checked_all). lia. Qed.

(** The float of a scaled integer is zero for 0, else a number of its sign
    whose hundredths round to it. *)
Lemma scaled_shape v :
  - 99999 <= v <= 99999 ->
  (v = 0 /\ Prim2SF (scaledFloat v) = S754_zero false)
  \/ exists m e, Prim2SF (scaledFloat v) = S754_finite (v <? 0) m e
                 /\ roundHundredths m e = Z.abs v.
Proof.
  intros Hv%checked_range. unfold checked in Hv. cbv zeta in Hv.
  apply andb_true_iff in Hv as [_ Hv].
  destruct (Prim2SF (scaledFloat v)) as [s|s| |s m e]; try done.
  - apply andb_true_iff in Hv as [Hs H0]. left. split; [lia|]. by destruct s.
  - apply andb_true_iff in Hv as [Hs Hr]. right. exists m, e.
    apply Bool.eqb_prop in Hs as ->. rewrite <- roundShift_eq. split; [done|lia].
Qed.

Lemma fmt2_scaled v : - 99999 <= v <= 99999 -> fmt2 (scaledFloat v) = showScaled v.
Proof.
  intros Hv. unfold fmt2, showScaled.
  destruct (scaled_shape v Hv) as [[-> ->]|(m & e & -> & ->)]; done.
Qed.

Lemma intPartOk_all : allFrom (Z.to_nat 1000) 0 intPartOk = true.
Proof. vm_cast_no_check (eq_refl true). Qed.

Lemma digitChar_digit d :
  0 <= d <= 9 -> isDigit (digitChar d) = true /\ digitValue (digitChar d) = d.
Proof.
  intros Hd.
  assert (d = 0 \/ d = 1 \/ d = 2 \/ d = 3 \/ d = 4 \/ d = 5 \/ d = 6 \/ d = 7
          \/ d = 8 \/ d = 9) as H by lia.
  repeat (destruct H as [->|H]; [by vm_compute|]). subst. by vm_compute.
Qed.

(** A scaled integer written out has the form of the grammar and reads
    back as itself. *)
Lemma showScaled_grammar v :
  - 99999 <= v <= 99999 ->
  matchesGrammar (showScaled v) = true /\ scaledValue (showScaled v) = v.
Proof.
  intros Hv. unfold showScaled.
  assert (0 <= Z.abs v / 100 < 1000) as Hn by (Z.div_mod_to_equations; lia).
  assert (0 <= Z.abs v mod 100 / 10 <= 9) as Hx by (Z.div_mod_to_equations; lia).
  assert (0 <= Z.abs v mod 10 <= 9) as Hy by (Z.div_mod_to_equations; lia).
  assert (Z.abs v = Z.abs v / 100 * 100 + (Z.abs v mod 100 / 10 * 10 + Z.abs v mod 10))
    as Hsplit by (Z.div_mod_to_equations; lia).
  destruct (digitChar_digit _ Hx) as [Dx Vx], (digitChar_digit _ Hy) as [Dy Vy].
  set (x := digitChar (Z.abs v mod 100 / 10)) in *.
  set (y := digitChar (Z.abs v mod 10)) in *.
  assert (intPartOk (Z.abs v / 100) = true) as Hint
    by (apply (allFrom_spec _ _ _ intPartOk_all); lia).
  unfold intPartOk in Hint.
  assert (Hform : forall u : string,
            unsignedForm u = true -> unsignedScaled u = Z.abs v ->
            matchesGrammar ((if v <? 0 then "-" else "") +:+ u) = true
            /\ scaledValue ((if v <? 0 then "-" else "") +:+ u) = v).
  { intros u Hu Hval. destruct (v <? 0) eqn:Hneg.
    - change ("-" +:+ u) with (String "-" u). unfold matchesGrammar, scaledValue.
      change (Ascii.eqb "-" minus) with true. cbv iota. split; [done|]. lia.
    - destruct (unsignedForm_first u Hu) as (a & r & -> & Ha & _).
      change ("" +:+ String a r) with (String a r). unfold matchesGrammar, scaledValue.
      rewrite (isDigit_not_minus a Ha). split; [done|]. lia. }
  destruct (decimal (Z.abs v / 100)) as [|a [|b [|c [|d ds]]]]; try done.
  - apply andb_true_iff in Hint as [Ha Hval]. apply Hform.
    + simpl. by rewrite Ha, Dx, Dy.
    + simpl. lia.
  - apply andb_true_iff in Hint as [Hint Hval]. apply andb_true_iff in Hint as [Ha Hb].
    apply Hform.
    + simpl. by rewrite Ha, Hb, Dx, Dy.
    + simpl. lia.
  - apply andb_true_iff in Hint as [Hint Hval]. apply andb_true_iff in Hint as [Hint Hc].
    apply andb_true_iff in Hint as [Ha Hb]. apply Hform.
    + simpl. by rewrite Ha, Hb, Hc, Dx, Dy.
    + simpl. lia.
Qed.

(** X3: a value parseTemp returns is printed by %.2f as its scaled integer
    with two fraction digits, a string of the grammar, and parseTemp reads
    what was printed back to the same float. *)
Theorem parse_format_round_trip b t :
  parseTemp b = Some t ->
  exists v,
    - 99999 <= v <= 99999 /\ t = scaledFloat v
    /\ fmt2 t = showScaled v
    /\ matchesGrammar (fmt2 t) = true
    /\ parseTemp (fmt2 t) = Some t.
Proof.
  intros Ht. assert (is_Some (parseTemp b)) as Hs by eauto.
  apply parseTemp_accepts_iff in Hs as (p & rest & -> & Hp).
  rewrite (parseTemp_prefix_value p rest Hp) in Ht. injection Ht as <-.
  pose proof (scaledValue_range p Hp) as Hv.
  destruct (showScaled_grammar _ Hv) as [Hg Hback].
  exists (scaledValue p). rewrite (fmt2_scaled _ Hv). repeat split; try done; try lia.
  rewrite <- (app_empty_r_s (showScaled _)).
  by rewrite (parseTemp_prefix_value _ "" Hg), Hback.
Qed.

Lemma parse_format_round_trip_witness :
  parseTemp "-007.50" = Some (scaledFloat (- 750))
  /\ exists v,
    - 99999 <= v <= 99999 /\ scaledFloat (- 750) = scaledFloat v
    /\ fmt2 (scaledFloat (- 750)) = showScaled v
    /\ matchesGrammar (fmt2 (scaledFloat (- 750))) = true
    /\ parseTemp (fmt2 (scaledFloat (- 750))) = Some (scaledFloat (- 750)).
Proof.
  split; [reflexivity|].
  apply (parse_format_round_trip "-007.50" (scaledFloat (- 750))). reflexivity.
Defined.

(** ** readNameUntilSemicolon *)

(** A string with a semicolon, cut at its first one. *)
Lemma semicolon_split s :
  hasByte semicolon s = true ->
  exists k rest, s = k +:+ String semicolon rest /\ hasByte semicolon k = false.
Proof.
  induction s as [|c s IH]; simpl; [done|].
  destruct (Ascii.eqb c semicolon) eqn:Hc.
  - intros _. apply Ascii.eqb_eq in Hc. subst c. by exists "", s.
  - simpl. intros (k & rest & -> & Hk)%IH.
    exists (String c k), rest. split; [done|]. simpl. by rewrite Hc.
Qed.

(** X4: the name returned is the start of the input and holds no
    semicolon, and it is as long as the input exactly when the input holds
    no semicolon: the test by which processChunk (line 234) tells that none
    was found. *)
Theorem readName_prefix_without_semicolon s :
  (exists rest, s = readNameUntilSemicolon s +:+ rest)
  /\ hasByte semicolon (readNameUntilSemicolon s) = false
  /\ (len (readNameUntilSemicolon s) = len s <-> hasByte semicolon s = false).
Proof.
  destruct (hasByte semicolon s) eqn:Hs.
  - destruct (semicolon_split s Hs) as (k & rest & -> & Hk).
    rewrite (readName_key k rest Hk). split; [by eexists|]. split; [done|].
    rewrite len_app, len_String. pose proof (len_nonneg rest). split; [lia|done].
  - rewrite (readName_whole s Hs). split; [exists ""; by rewrite app_empty_r_s|].
    done.
Qed.

(** ** calculateChunks *)

(** One iteration of the planning loop: where the chunk from [pos] ends. *)
Lemma plan_step data chunkSize pos :
  0 <= chunkSize -> 0 <= pos <= len data -> len data + chunkSize < 2 ^ 63 ->
  exists e,
    (if pos + chunkSize >=? len data then Ok (len data)
     else if sliceOk data (pos + chunkSize) (len data) then
       match indexByte (slice data (pos + chunkSize) (len data)) newline with
       | Some newlineIndex => Ok (wrap64 (pos + chunkSize + wrap64 (newlineIndex + 1)))
       | None => Ok (len data)
       end
     else Panic) = Ok e
    /\ pos <= e <= len data
    /\ (e = len data \/ (index data (e - 1) = newline /\ pos + chunkSize < e)).
Proof.
  intros Hc Hpos Hfit.
  destruct (pos + chunkSize >=? len data) eqn:Hge.
  - exists (len data). repeat split; lia.
  - assert (pos + chunkSize < len data) as Hlt by lia.
    assert (sliceOk data (pos + chunkSize) (len data) = true) as ->.
    { apply sliceOk_spec. lia. }
    rewrite slice_to_end by lia.
    destruct (indexByte _ newline) as [k|] eqn:Hk.
    + apply indexByte_Some in Hk as [Hk Hi].
      unfold len in Hk at 1. rewrite length_sdrop in Hk.
      rewrite index_sdrop in Hi by lia.
      assert (0 <= k < len data - (pos + chunkSize)) as Hk'.
      { unfold len. lia. }
      rewrite (wrap64_small (k + 1)) by lia.
      rewrite wrap64_small by lia.
      exists (pos + chunkSize + (k + 1)). repeat split; try lia.
      right. split; [|lia]. rewrite <- Hi. f_equal. lia.
    + exists (len data). repeat split; lia.
Qed.

(** Every chunk of the loop ends at the end of the file, or just after a
    newline and more than [chunkSize] bytes after its start. *)
Lemma planLoop_sizes data chunkSize n : forall pos chunks,
  0 <= chunkSize -> 0 <= pos <= len data -> len data + chunkSize < 2 ^ 63 ->
  planLoop n data (len data) chunkSize pos = Ok chunks ->
  forall c, c ∈ chunks ->
    c.2 = len data \/ (index data (c.2 - 1) = newline /\ c.1 + chunkSize < c.2).
Proof.
  induction n as [|n IH]; intros pos chunks Hc Hpos Hfit Hplan c Hin.
  - injection Hplan as <-. by apply elem_of_nil in Hin.
  - cbn [planLoop] in Hplan.
    rewrite (wrap64_small (pos + chunkSize)) in Hplan by lia.
    destruct (plan_step data chunkSize pos Hc Hpos Hfit) as (e & He & Hle & Hsize).
    rewrite He in Hplan. cbn [mbind outcome_bind] in Hplan.
    destruct (planLoop n data (len data) chunkSize e) as [rest| |] eqn:Hrest;
      cbn [mbind outcome_bind] in Hplan; try done.
    injection Hplan as <-. apply elem_of_cons in Hin as [->|Hin]; [done|].
    apply (IH e rest); try done. lia.
Qed.

(** The plan, chunk by chunk: each lies in the file, the first starts at 0,
    each next one starts where this one ends, the last ends at the end of
    the file, and each ends there or just after a newline, more than
    [len(data) / numWorkers] bytes after its start. *)
Lemma plan_layout data numWorkers chunks :
  1 <= numWorkers -> len data < 2 ^ 62 ->
  calculateChunks data (len data) numWorkers = Ok chunks ->
  Z.of_nat (length chunks) = numWorkers
  /\ forall i d, chunks !! i = Some d ->
       0 <= d.1 /\ d.1 <= d.2 /\ d.2 <= len data
       /\ (i = 0%nat -> d.1 = 0)
       /\ (forall d', chunks !! S i = Some d' -> d'.1 = d.2)
       /\ (S i = length chunks -> d.2 = len data)
       /\ (d.2 = len data
           \/ (index data (d.2 - 1) = newline
               /\ d.1 + Z.quot (len data) numWorkers < d.2)).
Proof.
  intros HW Hfit. pose proof (len_nonneg data) as Hlen.
  unfold calculateChunks.
  destruct (numWorkers <? 0) eqn:E1; [lia|]. destruct (numWorkers =? 0) eqn:E2; [lia|].
  clear E1 E2.
  assert (0 <= Z.quot (len data) numWorkers <= len data) as Hq.
  { split; [apply Z.quot_pos; lia|].
    rewrite Z.quot_div_nonneg by lia.
    apply Z.div_le_upper_bound; nia. }
  rewrite (wrap64_small (Z.quot _ _)) by lia.
  destruct (planLoop_chain data (Z.quot (len data) numWorkers) (Z.to_nat numWorkers) 0)
    as (chunks0 & Hplan & Hn & Hchain); try lia.
  rewrite Hplan. cbn [mbind outcome_bind].
  assert (Hsizes : forall c, c ∈ chunks0 ->
            c.2 = len data
            \/ (index data (c.2 - 1) = newline
                /\ c.1 + Z.quot (len data) numWorkers < c.2)).
  { apply (planLoop_sizes data _ (Z.to_nat numWorkers) 0); try done; lia. }
  set (k := Z.to_nat (numWorkers - 1)).
  assert (k < length chunks0)%nat as Hk by lia.
  destruct (lookup_lt_is_Some_2 chunks0 k Hk) as [c Hc]. rewrite Hc.
  intros [= <-]. rewrite length_insert. split; [lia|].
  intros i d Hd.
  destruct (decide (i = k)) as [->|Hne].
  - rewrite list_lookup_insert_eq in Hd by done. injection Hd as <-. simpl.
    destruct (chain_lookup _ _ _ _ _ _ Hchain Hc) as (H1 & H2 & _ & H4 & _).
    split; [lia|]. split; [lia|]. split; [lia|]. split; [exact H4|].
    split; [|split; [done|by left]].
    intros d' Hd'. apply lookup_lt_Some in Hd'. rewrite length_insert in Hd'. lia.
  - rewrite list_lookup_insert_ne in Hd by done.
    destruct (chain_lookup _ _ _ _ _ _ Hchain Hd) as (H1 & H2 & _ & H4 & H5).
    split; [lia|]. split; [lia|]. split; [lia|]. split; [exact H4|].
    split; [|split].
    + intros d' Hd'. destruct (decide (S i = k)) as [Hik|Hik].
      * rewrite Hik, list_lookup_insert_eq in Hd' by done. injection Hd' as <-.
        simpl. rewrite <- Hik in Hc. by apply H5.
      * rewrite list_lookup_insert_ne in Hd' by done. by apply H5.
    + intros Hlast. apply lookup_lt_Some in Hd. lia.
    + apply Hsizes. by apply list_elem_of_lookup_2 in Hd.
Qed.

(** X5: every chunk of the plan ends at the end of the file, or ends just
    after a newline and holds more than [len(data) / numWorkers] bytes; and
    once a chunk has reached the end of the file every later chunk is
    empty: the empty chunks are the last ones. *)
Theorem chunks_reach_target_or_end data numWorkers chunks :
  1 <= numWorkers -> len data < 2 ^ 62 ->
  calculateChunks data (len data) numWorkers = Ok chunks ->
  (forall c, c ∈ chunks ->
     c.2 = len data
     \/ (index data (c.2 - 1) = newline
         /\ c.1 + Z.quot (len data) numWorkers < c.2))
  /\ (forall i j c d, (i < j)%nat ->
        chunks !! i = Some c -> chunks !! j = Some d ->
        c.2 = len data -> d = (len data, len data)).
Proof.
  intros HW Hfit Hplan.
  destruct (plan_layout data numWorkers chunks HW Hfit Hplan) as [Hn Hl].
  split.
  - intros c [i Hc]%list_elem_of_lookup.
    destruct (Hl i c Hc) as (_ & _ & _ & _ & _ & _ & [?|[? ?]]); [by left|by right].
  - intros i j. induction j as [|j IH]; intros c d Hij Hc Hd Hend; [lia|].
    assert (exists e, chunks !! j = Some e /\ e.2 = len data) as (e & He & Hee).
    { destruct (decide (i = j)) as [->|Hne]; [by exists c|].
      destruct (lookup_lt_is_Some_2 chunks j) as [e He].
      { apply lookup_lt_Some in Hd. lia. }
      exists e. split; [done|]. by rewrite (IH c e ltac:(lia) Hc He Hend). }
    destruct (Hl j e He) as (_ & _ & _ & _ & Hnext & _).
    destruct (Hl (S j) d Hd) as (_ & H1 & H2 & _).
    specialize (Hnext d Hd). destruct d as [d1 d2]. simpl in *. f_equal; lia.
Qed.

Lemma chunks_reach_target_or_end_witness :
  (forall c, c ∈ [(0, 7); (7, 14); (14, 21); (21, 21); (21, 21)] ->
     c.2 = len threeLines
     \/ (index threeLines (c.2 - 1) = newline
         /\ c.1 + Z.quot (len threeLines) 5 < c.2))
  /\ (forall i j c d, (i < j)%nat ->
        [(0, 7); (7, 14); (14, 21); (21, 21); (21, 21)] !! i = Some c ->
        [(0, 7); (7, 14); (14, 21); (21, 21); (21, 21)] !! j = Some d ->
        c.2 = len threeLines -> d = (len threeLines, len threeLines)).
Proof.
  apply (chunks_reach_target_or_end threeLines 5); [lia|reflexivity|reflexivity].
Defined.

Lemma stake_split n m s : stake (n + m) s = stake n s +:+ stake m (sdrop n s).
Proof.
  revert s. induction n as [|n IH]; intros s; simpl; [done|].
  destruct s as [|c s]; simpl; [by destruct m|]. by rewrite IH.
Qed.

(** Two slices end to end are one slice. *)
Lemma slice_app data a b c :
  0 <= a -> a <= b -> b <= c ->
  slice data a b +:+ slice data b c = slice data a c.
Proof.
  intros Ha Hab Hbc. unfold slice.
  replace (Z.to_nat (c - a)) with (Z.to_nat (b - a) + Z.to_nat (c - b))%nat by lia.
  rewrite stake_split, sdrop_sdrop. do 3 f_equal. lia.
Qed.

(** Chunks laid end to end from [p] hold the bytes from [p] to the end of
    the last of them. *)
Lemma concatSlices_contiguous data chunks : forall p,
  0 <= p ->
  (forall i d, chunks !! i = Some d -> d.1 <= d.2) ->
  (forall d, chunks !! 0%nat = Some d -> d.1 = p) ->
  contiguous chunks ->
  p <= default p (snd <$> last chunks)
  /\ concatSlices data chunks = slice data p (default p (snd <$> last chunks)).
Proof.
  induction chunks as [|d chunks IH]; intros p Hp Hle Hfirst Hcont.
  - simpl. split; [lia|]. unfold slice. by rewrite Z.sub_diag.
  - pose proof (Hfirst d eq_refl) as Hd1. pose proof (Hle 0%nat d eq_refl) as Hd.
    destruct (IH d.2) as [Hge Hcat].
    + lia.
    + intros i e He. apply (Hle (S i) e He).
    + intros e He. apply (Hcont 0%nat d e eq_refl He).
    + intros i e e' He He'. apply (Hcont (S i) e e' He He').
    + cbn [concatSlices]. rewrite Hcat, Hd1.
      destruct chunks as [|e chunks].
      * simpl in *. split; [lia|]. unfold slice at 2. rewrite Z.sub_diag. simpl.
        by rewrite app_empty_r_s.
      * rewrite last_cons_cons.
        destruct (last (e :: chunks)) as [x|] eqn:Hx; [|by apply last_None in Hx].
        simpl in *. split; [lia|]. rewrite <- Hd1. apply slice_app; lia.
Qed.

(** X6: the chunks of the plan, read one after the other, are the file:
    every byte is in one chunk and in one only. *)
Theorem chunks_cover_file data numWorkers chunks :
  1 <= numWorkers -> len data < 2 ^ 62 ->
  calculateChunks data (len data) numWorkers = Ok chunks ->
  concatSlices data chunks = data.
Proof.
  intros HW Hfit Hplan.
  destruct (plan_layout data numWorkers chunks HW Hfit Hplan) as [Hn Hl].
  destruct (concatSlices_contiguous data chunks 0) as [_ ->]; try lia.
  - intros i d Hd. by destruct (Hl i d Hd) as (_ & ? & _).
  - intros d Hd. destruct (Hl 0%nat d Hd) as (_ & _ & _ & H0 & _). by apply H0.
  - intros i d d' Hd Hd'. destruct (Hl i d Hd) as (_ & _ & _ & _ & Hnext & _).
    by apply Hnext.
  - destruct (last chunks) as [d|] eqn:Hlast.
    + rewrite last_lookup in Hlast.
      destruct (Hl _ d Hlast) as (_ & _ & _ & _ & _ & Hend & _).
      simpl. rewrite Hend; [|destruct chunks; simpl in *; lia].
      rewrite slice_to_end by lia. done.
    + apply last_None in Hlast. subst chunks. simpl in Hn. lia.
Qed.

Lemma chunks_cover_file_witness :
  concatSlices scenario [(0, 30); (30, 60); (60, 60)] = scenario.
Proof.
  apply (chunks_cover_file scenario 3); [lia|reflexivity|reflexivity].
Defined.

(** ** processChunk *)

(** A string cut at its first newline. *)
Lemma newline_split r :
  exists v rest, r = v +:+ rest /\ hasByte newline v = false /\ endsValue rest = true.
Proof.
  induction r as [|c r (v & rest & -> & Hv & Hr)]; [by exists "", ""|].
  destruct (Ascii.eqb c newline) eqn:Hc.
  - exists "", (String c (v +:+ rest)). by repeat split.
  - exists (String c v), rest. repeat split; [|done]. simpl. by rewrite Hc.
Qed.

(** What is left of a chunk, when it holds a semicolon, read as a key, a
    value and the rest. *)
Lemma scan_decompose s :
  hasByte semicolon s = true ->
  exists key value rest,
    s = key +:+ String semicolon (value +:+ rest)
    /\ hasByte semicolon key = false
    /\ hasByte newline value = false
    /\ endsValue rest = true.
Proof.
  intros (key & r & -> & Hk)%semicolon_split.
  destruct (newline_split r) as (value & rest & -> & Hv & Hr).
  by exists key, value, rest.
Qed.

(** X7: processChunk panics exactly on a chunk that is not empty and does
    not lie within the data; in particular an empty chunk is scanned without
    a panic wherever it lies. *)
Theorem processChunk_panics_out_of_range data chunk :
  processChunk data chunk = Panic
  <-> chunk.1 < chunk.2 /\ (chunk.1 < 0 \/ len data < chunk.2).
Proof.
  destruct chunk as [i end_]. unfold processChunk. simpl. split.
  - intros Hp. destruct (Z.to_nat (end_ - i)) as [|fuel] eqn:Hf; [done|].
    split; [lia|].
    destruct (decide (0 <= i /\ end_ <= len data)) as [[H0 H1]|Hout]; [|lia].
    by apply (scanLoop_no_panic data end_ (S fuel) i ∅) in Hp.
  - intros [Hlt Hout].
    destruct (Z.to_nat (end_ - i)) as [|fuel] eqn:Hf; [lia|].
    cbn [scanLoop]. rewrite (proj2 (Z.ltb_lt i end_) Hlt).
    destruct (sliceOk data i end_) eqn:Hok; [|done].
    apply sliceOk_spec in Hok. lia.
Qed.

(** An error of the loop is the error of a value field of the chunk. *)
Lemma scanLoop_error data end_ fuel : forall i stats e,
  scanLoop fuel data i end_ stats = Err e ->
  exists start stop,
    e = MalformedNumber (slice data start stop)
    /\ 0 <= i /\ i < start /\ start <= stop /\ stop <= end_ /\ end_ <= len data
    /\ index data (start - 1) = semicolon
    /\ hasByte newline (slice data start stop) = false
    /\ (stop = end_ \/ index data stop = newline)
    /\ parseTemp (slice data start stop) = None.
Proof.
  induction fuel as [|fuel IH]; intros i stats e Herr; [done|].
  pose proof Herr as Herr'. cbn [scanLoop] in Herr'.
  destruct (i <? end_) eqn:Hlt; [|done].
  destruct (sliceOk data i end_) eqn:Hok; [|done]. clear Herr'.
  pose proof Hok as (Hlo & Hmid & Hhi)%sliceOk_spec.
  destruct (hasByte semicolon (slice data i end_)) eqn:Hsemi.
  - destruct (scan_decompose _ Hsemi) as (key & value & rest & Hs & Hk & Hv & Hr).
    rewrite (scanLoop_line _ _ _ _ _ key value rest Hok Hs Hk Hv Hr) in Herr.
    pose proof (len_slice _ _ _ Hok) as Hl.
    rewrite Hs, len_app, len_String, len_app in Hl.
    pose proof (len_nonneg key). pose proof (len_nonneg value).
    pose proof (len_nonneg rest).
    assert (Hs' : slice data i end_ = (key +:+ String semicolon "") +:+ (value +:+ rest)).
    { rewrite Hs, app_assoc_s. done. }
    assert (Hl1 : len (key +:+ String semicolon "") = len key + 1).
    { by rewrite len_app, len_String, len_empty. }
    assert (Hrest : slice data (i + (len key + 1)) end_ = value +:+ rest).
    { rewrite <- Hl1. by apply (slice_after_prefix _ _ _ _ _ Hok Hs'). }
    assert (Hok1 : sliceOk data (i + (len key + 1)) end_ = true).
    { apply sliceOk_spec. lia. }
    destruct (parseTemp value) as [temp|] eqn:Hp.
    + apply IH in Herr
        as (start & stop & -> & P0 & P1 & P2 & P3 & P4 & P5 & P6 & P7 & P8).
      exists start, stop.
      assert (0 <= terminatorLen rest) by (destruct rest; simpl; lia).
      repeat split; try done; lia.
    + injection Herr as <-.
      exists (i + (len key + 1)), (i + (len key + 1) + len value).
      rewrite (slice_prefix _ _ _ _ _ Hok1 Hrest).
      split; [done|]. split; [lia|]. split; [lia|]. split; [lia|].
      split; [lia|]. split; [lia|]. split.
      { replace (i + (len key + 1) - 1) with (i + len key) by lia.
        apply (index_after_prefix _ _ _ _ _ _ Hok Hs). }
      split; [done|]. split; [|done].
      destruct rest as [|c rest].
      * left. rewrite len_empty in Hl. lia.
      * right. simpl in Hr. apply Ascii.eqb_eq in Hr. subst c.
        apply (index_after_prefix _ _ _ _ _ _ Hok1 Hrest).
  - rewrite scanLoop_stop in Herr by (done || lia). done.
Qed.

(** X8: an error of processChunk is [MalformedNumber] of a value field of
    the chunk that parseTemp rejects: bytes of the chunk that follow a
    semicolon, hold no newline and end at the next newline or at the end of
    the chunk. *)
Theorem processChunk_error_is_a_value_field data chunk e :
  processChunk data chunk = Err e ->
  exists start stop,
    e = MalformedNumber (slice data start stop)
    /\ 0 <= chunk.1 /\ chunk.1 < start /\ start <= stop /\ stop <= chunk.2
    /\ chunk.2 <= len data
    /\ index data (start - 1) = semicolon
    /\ hasByte newline (slice data start stop) = false
    /\ (stop = chunk.2 \/ index data stop = newline)
    /\ parseTemp (slice data start stop) = None.
Proof. unfold processChunk. apply scanLoop_error. Qed.

Lemma processChunk_error_is_a_value_field_witness :
  exists start stop,
    MalformedNumber "xyz" = MalformedNumber (slice twoMalformed start stop)
    /\ 0 <= 6 /\ 6 < start /\ start <= stop /\ stop <= 12
    /\ 12 <= len twoMalformed
    /\ index twoMalformed (start - 1) = semicolon
    /\ hasByte newline (slice twoMalformed start stop) = false
    /\ (stop = 12 \/ index twoMalformed stop = newline)
    /\ parseTemp (slice twoMalformed start stop) = None.
Proof.
  apply (processChunk_error_is_a_value_field twoMalformed (6, 12) (MalformedNumber "xyz")).
  reflexivity.
Defined.

Lemma countOf_observe stats name temp station :
  countOf stats name + 1 < 2 ^ 63 ->
  (forall k s, stats !! k = Some s -> 1 <= Count s) ->
  countOf (observe stats name temp) station
  = countOf stats station + (if decide (name = station) then 1 else 0)
  /\ (forall k s, observe stats name temp !! k = Some s -> 1 <= Count s).
Proof.
  intros Hfit Hpos. unfold countOf, observe in *.
  destruct (stats !! name) as [s0|] eqn:Hname.
  - pose proof (Hpos _ _ Hname) as H0. split.
    + rewrite lookup_insert. destruct (decide (name = station)) as [<-|Hne].
      * rewrite Hname. simpl. rewrite wrap64_small; lia.
      * lia.
    + intros k s. rewrite lookup_insert. destruct (decide (name = k)) as [<-|Hne].
      * intros [= <-]. simpl. rewrite wrap64_small; lia.
      * apply Hpos.
  - split.
    + rewrite lookup_insert. destruct (decide (name = station)) as [<-|Hne].
      * by rewrite Hname.
      * lia.
    + intros k s. rewrite lookup_insert. destruct (decide (name = k)) as [<-|Hne].
      * intros [= <-]. simpl. lia.
      * apply Hpos.
Qed.

Lemma linesOf_cons station kv lines :
  linesOf station (kv :: lines)
  = ((if decide (kv.1 = station) then 1 else 0) + linesOf station lines)%nat.
Proof.
  unfold linesOf. rewrite filter_cons. by destruct (decide (kv.1 = station)).
Qed.

Lemma linesOf_le station lines : (linesOf station lines <= length lines)%nat.
Proof. unfold linesOf. apply length_filter. Qed.

(** The counts after the lines of a chunk: each station's count has grown
    by the number of its lines. *)
Lemma observeLines_counts lines : forall stats,
  Forall scannable lines ->
  (forall k, countOf stats k + Z.of_nat (length lines) < 2 ^ 63) ->
  (forall k s, stats !! k = Some s -> 1 <= Count s) ->
  (forall station,
     countOf (observeLines stats lines) station
     = countOf stats station + Z.of_nat (linesOf station lines))
  /\ (forall k s, observeLines stats lines !! k = Some s -> 1 <= Count s).
Proof.
  induction lines as [|kv lines IH]; intros stats Hall Hfit Hpos.
  - split; [|done]. intros station. unfold linesOf. simpl. lia.
  - inversion Hall as [|? ? (_ & _ & [temp Ht]) Hall']; subst.
    unfold observeLines. cbn [foldl]. unfold observeLine at 2 4. rewrite Ht.
    fold (observeLines (observe stats kv.1 temp) lines).
    assert (Hstep : forall station,
              countOf (observe stats kv.1 temp) station
              = countOf stats station + (if decide (kv.1 = station) then 1 else 0)).
    { intros station. apply countOf_observe; [|done].
      specialize (Hfit kv.1). simpl in Hfit. lia. }
    destruct (IH (observe stats kv.1 temp) Hall') as [Hc Hp].
    + intros k. rewrite Hstep. specialize (Hfit k). simpl in Hfit.
      destruct (decide (kv.1 = k)); lia.
    + apply (countOf_observe stats kv.1 temp kv.1); [|done].
      specialize (Hfit kv.1). simpl in Hfit. lia.
    + split; [|done]. intros station. rewrite Hc, Hstep, linesOf_cons.
      destruct (decide (kv.1 = station)); lia.
Qed.

Lemma length_le_len_linesText lines : Z.of_nat (length lines) <= len (linesText lines).
Proof.
  induction lines as [|kv lines IH]; [done|].
  rewrite len_linesText_cons. simpl length.
  pose proof (len_nonneg kv.1). pose proof (len_nonneg kv.2). lia.
Qed.

(** X9: a chunk that holds lines [key;value] whose values parse, then
    bytes without a semicolon, gives without error the statistics of its
    lines, each value observed in the order of the lines; the count of a
    station is the number of its lines, and a station has an entry exactly
    when it has a line. *)
Theorem chunk_statistics_of_lines data chunk lines tail :
  len data < 2 ^ 63 ->
  sliceOk data chunk.1 chunk.2 = true ->
  slice data chunk.1 chunk.2 = linesText lines +:+ tail ->
  Forall scannable lines ->
  hasByte semicolon tail = false ->
  processChunk data chunk = Ok (observeLines ∅ lines)
  /\ (forall station,
        countOf (observeLines ∅ lines) station = Z.of_nat (linesOf station lines))
  /\ (forall station,
        observeLines ∅ lines !! station = None <-> linesOf station lines = 0%nat).
Proof.
  intros Hfit Hok Hs Hall Htail.
  split; [by apply (processChunk_lines _ _ _ tail)|].
  pose proof (len_slice _ _ _ Hok) as Hl. rewrite Hs, len_app in Hl.
  pose proof (length_le_len_linesText lines). pose proof (len_nonneg tail).
  apply sliceOk_spec in Hok as (Q0 & Q1 & Q2).
  destruct (observeLines_counts lines ∅ Hall) as [Hc Hp].
  { intros k. unfold countOf. rewrite lookup_empty. lia. }
  { intros k s. by rewrite lookup_empty. }
  assert (Hcount : forall station,
            countOf (observeLines ∅ lines) station = Z.of_nat (linesOf station lines)).
  { intros station. rewrite Hc. unfold countOf at 1. by rewrite lookup_empty. }
  split; [done|]. intros station. specialize (Hcount station).
  unfold countOf in Hcount.
  destruct (observeLines ∅ lines !! station) as [s|] eqn:Hst.
  - pose proof (Hp _ _ Hst). split; [done|lia].
  - split; [lia|done].
Qed.

Lemma chunk_statistics_of_lines_witness :
  processChunk truncatedTail (0, 10) = Ok (observeLines ∅ [("a", "1.00")])
  /\ (forall station,
        countOf (observeLines ∅ [("a", "1.00")]) station
        = Z.of_nat (linesOf station [("a", "1.00")]))
  /\ (forall station,
        observeLines ∅ [("a", "1.00")] !! station = None
        <-> linesOf station [("a", "1.00")] = 0%nat).
Proof.
  apply (chunk_statistics_of_lines truncatedTail (0, 10) [("a", "1.00")] "abc");
    [reflexivity | reflexivity | reflexivity | | reflexivity].
  constructor; [|constructor].
  split; [reflexivity|]. split; [reflexivity|]. eexists. reflexivity.
Defined.

(** ** The merge of MustRun *)

Lemma foldl_mergeWorker_lookup results : forall finalStats station,
  foldl mergeWorker finalStats results !! station
  = match finalStats !! station with
    | Some s => Some s
    | None => firstEntry station results
    end.
Proof.
  induction results as [|r results IH]; intros fs station; simpl.
  - by destruct (fs !! station).
  - rewrite IH, mergeWorker_union, lookup_union.
    destruct (fs !! station), (r !! station); done.
Qed.

Lemma firstEntry_None station results :
  firstEntry station results = None <-> Forall (fun r => r !! station = None) results.
Proof.
  induction results as [|r results IH]; simpl.
  - split; [constructor|done].
  - destruct (r !! station) as [s|] eqn:Hr.
    + split; [done|]. intros H. inversion H; congruence.
    + rewrite IH. split; [by constructor|]. intros H. by inversion H.
Qed.

(** X10: whatever the order in which the maps are ranged over, the merged
    map holds for a station the entry it had before the merge, else the
    entry of the first worker that has one, unchanged: the entries of later
    workers for that station do not reach it. A station is absent from the
    merged map only when it was absent before and from every worker. *)
Theorem merge_keeps_first_entry results finalStats final station :
  mergeAny results finalStats final ->
  final !! station
  = match finalStats !! station with
    | Some s => Some s
    | None => firstEntry station results
    end
  /\ (final !! station = None
      <-> finalStats !! station = None
          /\ Forall (fun r => r !! station = None) results).
Proof.
  intros ->%mergeAny_foldl. rewrite foldl_mergeWorker_lookup. split; [done|].
  destruct (finalStats !! station) as [s|].
  - split; [done|]. by intros [? _].
  - rewrite firstEntry_None. split; [done|]. by intros [_ ?].
Qed.

Lemma merge_keeps_first_entry_witness :
  mergeResults sharedStation !! "a"
  = match (∅ : gmap string StationStats) !! "a" with
    | Some s => Some s
    | None => firstEntry "a" sharedStation
    end
  /\ (mergeResults sharedStation !! "a" = None
      <-> (∅ : gmap string StationStats) !! "a" = None
          /\ Forall (fun r => r !! "a" = None) sharedStation).
Proof.
  apply (merge_keeps_first_entry sharedStation ∅ (mergeResults sharedStation) "a").
  apply mergeAny_mergeWorker.
Defined.

(** ** MustRun *)

Lemma calculateChunks_no_workers data fileSize numWorkers :
  numWorkers <= 0 -> calculateChunks data fileSize numWorkers = Panic.
Proof.
  intros H. unfold calculateChunks.
  destruct (numWorkers <? 0) eqn:E1; [done|].
  destruct (numWorkers =? 0) eqn:E2; [done|]. lia.
Qed.

(** On a file that is not empty, the model of the claims panics exactly
    when the worker count is zero or negative. *)
Lemma MustRunAny_panic data numWorkers :
  0 < len data < 2 ^ 62 ->
  MustRunAny data numWorkers Panic <-> numWorkers <= 0.
Proof.
  intros Hlen. split.
  - intros H. destruct (decide (numWorkers <= 0)) as [|HW]; [done|]. exfalso.
    inversion H as [|? Hplan|chunks c ? Hplan Hin Hp| |]; subst.
    + destruct (calculateChunks_shape data numWorkers) as (chunks & c & Hc & _); [lia..|].
      cbv zeta in Hc. congruence.
    + destruct (calculateChunks_in_range data numWorkers chunks c) as (? & ? & ?);
        [lia|lia|done|done|].
      by apply (processChunk_no_panic data c).
  - intros HW. apply run_plan_panic; [lia|]. by apply calculateChunks_no_workers.
Qed.

(** X11: on a file that is not empty, MustRun panics in two cases only,
    both in calculateChunks before any chunk is scanned: the worker count is
    zero or negative, or the table of [numWorkers] chunks is more than
    [make] can allocate. In every other case no slice or index goes out of
    range, in the planner or in a worker. With the default of lines 43-45
    the first case is a negative [-w]. *)
Theorem run_panics_without_workers maxAlloc data numWorkers :
  0 < len data < 2 ^ 62 ->
  (MustRunWithin maxAlloc data numWorkers Panic
   <-> numWorkers <= 0 \/ maxAlloc < 16 * numWorkers)
  /\ (forall fWorkers numCPU,
        1 <= numCPU -> 16 * numCPU <= maxAlloc ->
        (MustRunWithin maxAlloc data (workerCount fWorkers numCPU) Panic
         <-> fWorkers < 0 \/ maxAlloc < 16 * fWorkers)).
Proof.
  intros Hlen.
  assert (Hiff : forall W,
            MustRunWithin maxAlloc data W Panic <-> W <= 0 \/ maxAlloc < 16 * W).
  { intros W. unfold MustRunWithin.
    destruct (decide (len data <> 0 /\ maxAlloc < 16 * W)) as [[_ Hbig]|Hsmall].
    - split; [by right|done].
    - rewrite MustRunAny_panic by done. split; [by left|].
      intros [?|?]; [done|]. exfalso. apply Hsmall. split; lia. }
  split; [done|]. intros fWorkers numCPU Hcpu Hfit. rewrite Hiff. unfold workerCount.
  destruct (fWorkers =? 0) eqn:E; lia.
Qed.

Lemma run_panics_without_workers_witness :
  (MustRunWithin (2 ^ 48) threeLines 0 Panic <-> 0 <= 0 \/ 2 ^ 48 < 16 * 0)
  /\ (forall fWorkers numCPU,
        1 <= numCPU -> 16 * numCPU <= 2 ^ 48 ->
        (MustRunWithin (2 ^ 48) threeLines (workerCount fWorkers numCPU) Panic
         <-> fWorkers < 0 \/ 2 ^ 48 < 16 * fWorkers)).
Proof.
  apply (run_panics_without_workers (2 ^ 48) threeLines 0). vm_compute. split; reflexivity.
Defined.

Lemma calculateChunks_one_worker data :
  len data < 2 ^ 62 -> calculateChunks data (len data) 1 = Ok [(0, len data)].
Proof.
  intros Hfit. pose proof (len_nonneg data).
  unfold calculateChunks. simpl. rewrite Z.quot_1_r.
  rewrite !(wrap64_small (len data)) by lia.
  rewrite Z.add_0_l, (wrap64_small (len data)) by lia.
  destruct (len data >=? len data) eqn:E; [|lia]. reflexivity.
Qed.

Lemma mergeResults_one r : mergeResults [r] = r.
Proof.
  unfold mergeResults. simpl. rewrite mergeWorker_union. apply (left_id_L ∅ (∪)).
Qed.

(** X12: with one worker, a file of lines [key;value] whose values parse,
    then bytes without a semicolon, is read in one chunk, and every run
    prints the statistics of all its lines. *)
Theorem one_worker_prints_all_lines data lines tail :
  0 < len data < 2 ^ 62 ->
  data = linesText lines +:+ tail ->
  Forall scannable lines ->
  hasByte semicolon tail = false ->
  calculateChunks data (len data) 1 = Ok [(0, len data)]
  /\ finalStatsOf data 1 = Ok (observeLines ∅ lines)
  /\ forall o, MustRunAny data 1 o -> o = Ok (printResults (observeLines ∅ lines)).
Proof.
  intros Hlen Hdata Hall Htail.
  assert (Hplan : calculateChunks data (len data) 1 = Ok [(0, len data)])
    by (apply calculateChunks_one_worker; lia).
  assert (Hchunk : processChunk data (0, len data) = Ok (observeLines ∅ lines)).
  { apply (processChunk_lines _ _ _ tail); try done; simpl.
    - apply sliceOk_spec. lia.
    - rewrite slice_to_end by lia. done. }
  assert (Hstats : finalStatsOf data 1 = Ok (observeLines ∅ lines)).
  { unfold finalStatsOf, scanChunks. rewrite Hplan. cbn [mbind outcome_bind map collect].
    rewrite Hchunk. cbn [mbind outcome_bind]. by rewrite mergeResults_one. }
  split; [done|]. split; [done|].
  apply MustRun_Ok_all. unfold MustRun.
  destruct (len data =? 0) eqn:E; [lia|]. rewrite Hstats. reflexivity.
Qed.

Lemma one_worker_prints_all_lines_witness :
  calculateChunks threeLines (len threeLines) 1 = Ok [(0, len threeLines)]
  /\ finalStatsOf threeLines 1
     = Ok (observeLines ∅ [("a", "1.00"); ("a", "2.00"); ("a", "3.00")])
  /\ forall o, MustRunAny threeLines 1 o ->
       o = Ok (printResults (observeLines ∅ [("a", "1.00"); ("a", "2.00"); ("a", "3.00")])).
Proof.
  apply (one_worker_prints_all_lines threeLines
           [("a", "1.00"); ("a", "2.00"); ("a", "3.00")] "").
  - vm_compute. split; reflexivity.
  - reflexivity.
  - repeat constructor; eexists; reflexivity.
  - reflexivity.
Defined.

(** ** Files of well-formed lines *)







Lemma index_app_l a b k : 0 <= k < len a -> index (a +:+ b) k = index a k.
Proof.
  revert k. induction a as [|c a IH]; intros k; [rewrite len_empty; lia|].
  rewrite len_String. intros Hk. simpl.
  destruct (decide (k = 0)) as [->|Hne]; [by rewrite !index_0|].
  replace k with (k - 1 + 1) by lia. rewrite !index_succ by lia. apply IH. lia.
Qed.

Lemma index_app_r a b k : len a <= k -> index (a +:+ b) k = index b (k - len a).
Proof.
  revert k. induction a as [|c a IH]; intros k.
  - rewrite len_empty, Z.sub_0_r. done.
  - rewrite len_String. pose proof (len_nonneg a). intros Hk. simpl.
    replace k with (k - 1 + 1) at 1 by lia. rewrite index_succ by lia.
    rewrite IH by lia. f_equal. lia.
Qed.

Lemma index_hasByte c s k : hasByte c s = false -> 0 <= k < len s -> index s k <> c.
Proof.
  revert k. induction s as [|x s IH]; intros k; [rewrite len_empty; lia|].
  simpl. rewrite len_String. intros [Hx Hs]%orb_false_iff Hk.
  destruct (decide (k = 0)) as [->|Hne].
  - rewrite index_0. by apply Ascii.eqb_neq.
  - replace k with (k - 1 + 1) by lia. rewrite index_succ by lia. apply IH; [done|lia].
Qed.

(** No position from the semicolon of a line to the end of its value is
    just after a newline. *)
Lemma no_newline_in_value key value rest p :
  hasByte newline value = false ->
  len key < p <= len key + 1 + len value ->
  index (key +:+ String semicolon (value +:+ rest)) (p - 1) <> newline.
Proof.
  intros Hv Hp. pose proof (len_nonneg key).
  rewrite index_app_r by lia.
  destruct (decide (p - 1 - len key = 0)) as [->|Hne]; [by rewrite index_0|].
  replace (p - 1 - len key) with (p - 2 - len key + 1) by lia.
  rewrite index_succ by lia. rewrite index_app_l by lia.
  apply index_hasByte; [done|lia].
Qed.

Lemma lineText_split kv rest :
  lineText kv +:+ rest = kv.1 +:+ String semicolon (kv.2 +:+ (nl +:+ rest)).
Proof. unfold lineText. rewrite app_assoc_s. simpl. by rewrite app_assoc_s. Qed.

Lemma len_lineText kv : len (lineText kv) = len kv.1 + 1 + len kv.2 + 1.
Proof.
  unfold lineText. rewrite len_app, len_String, len_app. unfold nl.
  rewrite len_String, len_empty. lia.
Qed.

Lemma lineBoundary_after a b p :
  len a <= p <= len (a +:+ b) -> lineBoundary (a +:+ b) p -> lineBoundary b (p - len a).
Proof.
  rewrite len_app. pose proof (len_nonneg a). intros Hp [->|[->|Hnl]].
  - left. lia.
  - right. left. rewrite len_app. lia.
  - destruct (decide (p = len a)) as [->|Hne]; [left; lia|].
    right. right. rewrite index_app_r in Hnl by lia.
    by replace (p - len a - 1) with (p - 1 - len a) by lia.
Qed.

Lemma lineBoundary_line kv rest p :
  hasByte newline kv.2 = false ->
  len kv.1 < p <= len (lineText kv +:+ rest) ->
  lineBoundary (lineText kv +:+ rest) p ->
  len (lineText kv) <= p.
Proof.
  intros Hv Hp Hb. unfold lineBoundary in Hb. rewrite len_app, len_lineText in *.
  pose proof (len_nonneg kv.1). pose proof (len_nonneg kv.2). pose proof (len_nonneg rest).
  destruct (decide (len kv.1 + 1 + len kv.2 + 1 <= p)) as [|Hmid]; [done|]. exfalso.
  destruct Hb as [->|[->|Hnl]]; [lia|lia|].
  rewrite lineText_split in Hnl. by apply no_newline_in_value in Hnl; [|done|lia].
Qed.




(** The chunks of a plan start and end at line boundaries. *)
Lemma chunks_at_boundaries data numWorkers chunks d :
  1 <= numWorkers -> len data < 2 ^ 62 ->
  calculateChunks data (len data) numWorkers = Ok chunks ->
  d ∈ chunks ->
  0 <= d.1 /\ d.1 <= d.2 /\ d.2 <= len data
  /\ lineBoundary data d.1 /\ lineBoundary data d.2.
Proof.
  intros HW Hfit Hplan [i Hi]%list_elem_of_lookup.
  destruct (plan_layout data numWorkers chunks HW Hfit Hplan) as [Hn Hlay].
  destruct (Hlay i d Hi) as (P0 & P1 & P2 & P3 & _ & _ & P6).
  assert (Hend : forall j c, chunks !! j = Some c -> lineBoundary data c.2).
  { intros j c Hc. destruct (Hlay j c Hc) as (_ & _ & _ & _ & _ & _ & [E|[E _]]).
    - right. by left.
    - right. by right. }
  repeat split; try done; [|by apply (Hend i)].
  destruct i as [|j]; [left; by apply P3|].
  destruct (lookup_lt_is_Some_2 chunks j) as [c Hc];
    [apply lookup_lt_Some in Hi; lia|].
  destruct (Hlay j c Hc) as (_ & _ & _ & _ & Q4 & _).
  rewrite (Q4 d Hi). by apply (Hend j).
Qed.



(** ** The lines each worker reads *)

Lemma chain_set_last data fileSize chunks : forall p k c,
  chain data fileSize p chunks -> chunks !! k = Some c -> S k = length chunks ->
  chain data fileSize p (<[k:=(c.1, fileSize)]> chunks)
  /\ last (<[k:=(c.1, fileSize)]> chunks) = Some (c.1, fileSize).
Proof.
  induction chunks as [|x chunks IH]; intros p k c Hch Hk Hlen; [done|].
  inversion Hch as [|p' e rest He Hb Hrest]; subst.
  destruct k as [|k]; simpl in *.
  - injection Hk as <-. destruct chunks as [|y chunks]; [|simpl in Hlen; lia].
    simpl. split; [|done]. constructor; [lia|by left|constructor].
  - destruct (IH e k c Hrest Hk) as [Hch' Hlast]; [lia|].
    split; [by constructor|].
    destruct (<[k:=(c.1, fileSize)]> chunks) as [|y l] eqn:E; [done|]. done.
Qed.

(** The plan is a chain of chunks from 0 whose last chunk ends at the end
    of the file. *)
Lemma plan_chain data numWorkers chunks :
  1 <= numWorkers -> len data < 2 ^ 62 ->
  calculateChunks data (len data) numWorkers = Ok chunks ->
  Z.of_nat (length chunks) = numWorkers
  /\ chain data (len data) 0 chunks
  /\ exists c, last chunks = Some c /\ c.2 = len data.
Proof.
  intros HW Hfit Hplan.
  destruct (calculateChunks_shape data numWorkers HW Hfit)
    as (chunks0 & c0 & Hplan' & Hn & Hc0 & Hchain).
  cbv zeta in Hplan'. rewrite Hplan in Hplan'. injection Hplan' as ->.
  destruct (chain_set_last _ _ _ _ _ _ Hchain Hc0) as [Hch Hlast]; [lia|].
  split; [by rewrite length_insert|]. split; [done|]. by exists (c0.1, len data).
Qed.

Lemma linesText_app a b : linesText (a ++ b) = linesText a +:+ linesText b.
Proof.
  induction a as [|kv a IH]; simpl; [done|]. by rewrite IH, app_assoc_s.
Qed.

Lemma len_linesText_nil lines : len (linesText lines) = 0 -> lines = [].
Proof.
  destruct lines as [|kv lines]; [done|]. rewrite len_linesText_cons.
  pose proof (len_nonneg kv.1). pose proof (len_nonneg kv.2).
  pose proof (len_nonneg (linesText lines)). lia.
Qed.

(** A line boundary of a text of whole lines is the end of one of them. *)
Lemma line_split lines : forall q,
  Forall wholeLine lines ->
  0 <= q <= len (linesText lines) ->
  lineBoundary (linesText lines) q ->
  exists part rest, lines = part ++ rest /\ q = len (linesText part).
Proof.
  induction lines as [|kv lines IH]; intros q Hall Hq Hb.
  - exists [], []. simpl in *. rewrite len_empty in *. split; [done|lia].
  - destruct (decide (q = 0)) as [->|Hne]; [by exists [], (kv :: lines)|].
    inversion Hall as [|? ? [(Hk & Hv & Ht) Hkn] Hall']; subst.
    cbn [linesText] in *.
    pose proof (len_nonneg kv.1). pose proof (len_nonneg kv.2).
    pose proof (len_nonneg (linesText lines)).
    assert (Hkey : len kv.1 < q).
    { destruct (decide (len kv.1 < q)) as [|Hin]; [done|]. exfalso.
      pose proof Hq as Hq'. rewrite len_app, len_lineText in Hq'.
      destruct Hb as [->|[Hb|Hb]]; [done| |].
      - rewrite len_app, len_lineText in Hb. lia.
      - rewrite lineText_split, index_app_l in Hb by lia.
        by apply (index_hasByte newline kv.1 (q - 1)) in Hb; [|done|lia]. }
    assert (Hline : len (lineText kv) <= q)
      by (apply (lineBoundary_line kv (linesText lines)); [done|lia|done]).
    destruct (IH (q - len (lineText kv))) as (part & rest & -> & Hpart); [done| | |].
    + rewrite len_app in Hq. lia.
    + apply lineBoundary_after; [lia|done].
    + exists (kv :: part), rest. split; [done|].
      cbn [linesText]. rewrite len_app. lia.
Qed.

(** The chunks of a chain over a text of whole lines cut it into groups of
    consecutive lines. *)
Lemma chain_parts data chunks : forall p rest,
  chain data (len data) p chunks ->
  0 <= p <= len data ->
  sdrop (Z.to_nat p) data = linesText rest ->
  Forall wholeLine rest ->
  match last chunks with Some c => c.2 = len data | None => p = len data end ->
  exists parts,
    concat parts = rest
    /\ Forall2 (fun c part => slice data c.1 c.2 = linesText part) chunks parts.
Proof.
  induction chunks as [|x chunks IH]; intros p rest Hch Hp Hs Hall Hlast.
  - simpl in Hlast. exists []. split; [|constructor]. simpl.
    symmetry. apply len_linesText_nil. rewrite <- Hs. unfold len.
    rewrite length_sdrop. unfold len in Hlast. lia.
  - inversion Hch as [|p' e chunks' He Hb Hrest]; subst.
    assert (Hlen : len (linesText rest) = len data - p).
    { rewrite <- Hs. unfold len. rewrite length_sdrop. unfold len in Hp. lia. }
    destruct (line_split rest (e - p)) as (part & rest' & -> & Hpart); [done|lia| |].
    { destruct (decide (e = p)) as [->|Hne]; [left; lia|].
      destruct Hb as [->|Hnl]; [right; left; lia|].
      right. right. rewrite <- Hs, index_sdrop by lia.
      by replace (Z.of_nat (Z.to_nat p) + (e - p - 1)) with (e - 1) by lia. }
    apply Forall_app in Hall as [Hall1 Hall2].
    pose proof (len_nonneg (linesText part)).
    assert (Hslice : slice data p e = linesText part).
    { unfold slice. rewrite Hs, linesText_app.
      replace (Z.to_nat (e - p)) with (String.length (linesText part))
        by (unfold len in Hpart; lia).
      apply stake_app_length. }
    destruct (IH e rest') as (parts & Hparts & Hall'); [done|lia| |done| |].
    + replace (Z.to_nat e) with (Z.to_nat p + String.length (linesText part))%nat
        by (unfold len in Hpart; lia).
      rewrite <- sdrop_sdrop, Hs, linesText_app. apply sdrop_app_length.
    + destruct chunks as [|y chunks]; [by simpl in Hlast|].
      change (last ((p, e) :: y :: chunks)) with (last (y :: chunks)) in Hlast.
      destruct (last (y :: chunks)) eqn:E; [done|by apply last_None in E].
    + exists (part :: parts). split; [by rewrite <- Hparts|]. by constructor.
Qed.

Lemma observeLines_absent station lines : forall stats,
  linesOf station lines = 0%nat ->
  observeLines stats lines !! station = stats !! station.
Proof.
  induction lines as [|kv lines IH]; intros stats; [done|].
  rewrite linesOf_cons. destruct (decide (kv.1 = station)) as [|Hne]; [lia|].
  intros Hrest. unfold observeLines. cbn [foldl].
  fold (observeLines (observeLine stats kv) lines). rewrite IH by lia.
  unfold observeLine. destruct (parseTemp kv.2) as [temp|]; [|done].
  unfold observe. destruct (stats !! kv.1); by rewrite lookup_insert_ne.
Qed.

Lemma linesOf_app station a b :
  linesOf station (a ++ b) = (linesOf station a + linesOf station b)%nat.
Proof. unfold linesOf. by rewrite filter_app, List.length_app. Qed.

Lemma linesOf_concat station parts :
  (0 < linesOf station (concat parts))%nat
  <-> Exists (fun part => (0 < linesOf station part)%nat) parts.
Proof.
  induction parts as [|part parts IH]; simpl.
  - split; [unfold linesOf; simpl; lia|by inversion 1].
  - rewrite linesOf_app, Exists_cons, <- IH. lia.
Qed.

Lemma firstEntry_is_Some station results :
  is_Some (firstEntry station results)
  <-> Exists (fun r => is_Some (r !! station)) results.
Proof.
  induction results as [|r results IH]; simpl.
  - split; [by intros [? ?]|by inversion 1].
  - rewrite Exists_cons, <- IH. destruct (r !! station) as [s|].
    + split; [by left|by eexists].
    + split; [by right|]. by intros [[? ?]|?].
Qed.

(** A group of lines short enough for its counts gives a station an entry
    exactly when the station has a line. *)
Lemma observeLines_is_Some station lines :
  Forall scannable lines -> len (linesText lines) < 2 ^ 63 ->
  is_Some (observeLines ∅ lines !! station) <-> (0 < linesOf station lines)%nat.
Proof.
  intros Hall Hfit. pose proof (length_le_len_linesText lines).
  destruct (observeLines_counts lines ∅ Hall) as [Hc Hp].
  { intros k. unfold countOf. rewrite lookup_empty. lia. }
  { intros k s. by rewrite lookup_empty. }
  specialize (Hc station). unfold countOf in Hc. rewrite lookup_empty in Hc.
  destruct (observeLines ∅ lines !! station) as [s|] eqn:Hst.
  - pose proof (Hp _ _ Hst). split; [lia|by eexists].
  - split; [by intros [? ?]|lia].
Qed.

(** Each group is no longer than all of them together. *)
Lemma parts_fit bound parts :
  Forall scannable (concat parts) -> len (linesText (concat parts)) < bound ->
  Forall (fun part => Forall scannable part /\ len (linesText part) < bound) parts.
Proof.
  induction parts as [|part parts IH]; intros Hscan Hlen; [constructor|].
  simpl in *. apply Forall_app in Hscan as [Hs1 Hs2].
  rewrite linesText_app, len_app in Hlen.
  pose proof (len_nonneg (linesText part)).
  pose proof (len_nonneg (linesText (concat parts))).
  constructor; [split; [done|lia]|]. apply IH; [done|lia].
Qed.

(** Workers on chunks that hold groups of lines return the statistics of
    the groups. *)
Lemma chunks_results data chunks parts :
  Forall2 (fun c part => slice data c.1 c.2 = linesText part) chunks parts ->
  Forall scannable (concat parts) ->
  (forall d, d ∈ chunks -> 0 <= d.1 /\ d.1 <= d.2 /\ d.2 <= len data) ->
  Forall2 (fun c r => processChunk data c = Ok r) chunks (map (observeLines ∅) parts).
Proof.
  intros Hslices. induction Hslices as [|d part chunks' parts' Hd Hrest IH];
    intros Hscan Hin; [constructor|].
  simpl in Hscan. apply Forall_app in Hscan as [Hs1 Hs2].
  simpl. constructor.
  - apply (processChunk_lines _ _ _ ""); try done.
    + apply sliceOk_spec. apply Hin, list_elem_of_here.
    + by rewrite app_empty_r_s.
  - apply IH; [done|]. intros d' Hd'. by apply Hin, list_elem_of_further.
Qed.

(** On a file of whole lines the plan cuts the lines into one group of
    consecutive lines per worker, and each worker returns the statistics of
    its group. *)
Lemma plan_parts data lines numWorkers :
  data = linesText lines -> Forall wholeLine lines ->
  0 < len data < 2 ^ 62 -> 1 <= numWorkers ->
  exists chunks parts,
    calculateChunks data (len data) numWorkers = Ok chunks
    /\ concat parts = lines
    /\ Z.of_nat (length parts) = numWorkers
    /\ Forall2 (fun c r => processChunk data c = Ok r) chunks
         (map (observeLines ∅) parts).
Proof.
  intros Hdata Hall Hlen HW.
  destruct (calculateChunks_shape data numWorkers) as (chunks0 & c0 & Hplan & _);
    [lia..|].
  cbv zeta in Hplan. set (chunks := <[_:=_]> chunks0) in Hplan.
  destruct (plan_chain data numWorkers chunks) as (Hn & Hchain & c & Hlast & Hc);
    [lia|lia|done|].
  destruct (chain_parts data chunks 0 lines) as (parts & Hparts & Hslices);
    [done|lia|by rewrite Hdata|done|by rewrite Hlast|].
  exists chunks, parts. split; [done|]. split; [done|].
  split; [by rewrite <- (Forall2_length _ _ _ Hslices)|].
  apply chunks_results; [done| |].
  - rewrite Hparts. eapply Forall_impl; [exact Hall|]. by intros kv [? _].
  - intros d Hd. apply (calculateChunks_in_range data numWorkers chunks); try done; lia.
Qed.

(** X14: on a file of whole lines [key;value], [numWorkers] workers read
    [numWorkers] groups of consecutive lines that together are the lines of
    the file, and the merged map is the merge of the statistics of the
    groups; it has an entry for a station exactly when the file has a line
    of that station, so that no station is missing from what is printed. *)
Theorem workers_read_consecutive_lines data lines numWorkers :
  data = linesText lines -> Forall wholeLine lines ->
  0 < len data < 2 ^ 62 -> 1 <= numWorkers ->
  exists parts,
    concat parts = lines
    /\ Z.of_nat (length parts) = numWorkers
    /\ finalStatsOf data numWorkers = Ok (mergeResults (map (observeLines ∅) parts))
    /\ forall station,
         is_Some (mergeResults (map (observeLines ∅) parts) !! station)
         <-> (0 < linesOf station lines)%nat.
Proof.
  intros Hdata Hall Hlen HW.
  destruct (plan_parts data lines numWorkers)
    as (chunks & parts & Hplan & Hparts & Hn & Hrs); try done.
  exists parts. split; [done|]. split; [done|].
  assert (Hscan : Forall scannable lines).
  { eapply Forall_impl; [exact Hall|]. by intros kv [? _]. }
  split.
  { unfold finalStatsOf, scanChunks. rewrite Hplan. cbn [mbind outcome_bind].
    apply collect_Ok in Hrs. by rewrite Hrs. }
  intros station. unfold mergeResults.
  rewrite foldl_mergeWorker_lookup, lookup_empty, firstEntry_is_Some.
  rewrite <- Hparts, linesOf_concat, Exists_fmap.
  assert (Hfit : Forall (fun part => Forall scannable part
                                     /\ len (linesText part) < 2 ^ 63) parts).
  { apply parts_fit; rewrite Hparts; [done|]. rewrite <- Hdata. lia. }
  clear -Hfit. induction Hfit as [|part parts [Hs Hl] Hrest IH].
  - split; inversion 1.
  - rewrite !Exists_cons, IH. simpl. by rewrite observeLines_is_Some.
Qed.

Lemma workers_read_consecutive_lines_witness :
  exists parts,
    concat parts = [("a", "1.00"); ("a", "2.00"); ("a", "3.00")]
    /\ Z.of_nat (length parts) = 2
    /\ finalStatsOf threeLines 2 = Ok (mergeResults (map (observeLines ∅) parts))
    /\ forall station,
         is_Some (mergeResults (map (observeLines ∅) parts) !! station)
         <-> (0 < linesOf station [("a", "1.00"); ("a", "2.00"); ("a", "3.00")])%nat.
Proof.
  apply (workers_read_consecutive_lines threeLines
           [("a", "1.00"); ("a", "2.00"); ("a", "3.00")] 2).
  - reflexivity.
  - repeat constructor; eexists; reflexivity.
  - vm_compute. split; reflexivity.
  - lia.
Defined.

Lemma observeLine_union m m' kv :
  m !! kv.1 = None -> observeLine (m ∪ m') kv = m ∪ observeLine m' kv.
Proof.
  intros Hm. unfold observeLine. destruct (parseTemp kv.2) as [temp|]; [|done].
  unfold observe. rewrite lookup_union_r by done.
  destruct (m' !! kv.1); by rewrite insert_union_r.
Qed.

Lemma observeLines_union lines : forall m m',
  Forall (fun kv => m !! kv.1 = None) lines ->
  observeLines (m ∪ m') lines = m ∪ observeLines m' lines.
Proof.
  induction lines as [|kv lines IH]; intros m m' Hall; [done|].
  inversion Hall as [|? ? Hkv Hall']; subst.
  unfold observeLines. cbn [foldl]. rewrite observeLine_union by done.
  by apply IH.
Qed.

Lemma linesOf_elem kv lines : kv ∈ lines -> (0 < linesOf kv.1 lines)%nat.
Proof.
  induction lines as [|x lines IH]; [by inversion 1|].
  rewrite linesOf_cons. intros [->|Hin]%elem_of_cons.
  - destruct (decide (x.1 = x.1)); [lia|done].
  - apply IH in Hin. lia.
Qed.

Lemma merge_apart parts : forall m,
  (forall station, (0 < linesOf station (concat parts))%nat -> m !! station = None) ->
  stationsApart parts ->
  foldl mergeWorker m (map (observeLines ∅) parts) = m ∪ observeLines ∅ (concat parts).
Proof.
  induction parts as [|part parts IH]; intros m Hm Hap; simpl.
  - by rewrite (right_id_L ∅ (∪)).
  - destruct Hap as [Hpart Hap].
    assert (Hobs : forall station, (0 < linesOf station (concat parts))%nat ->
                     observeLines ∅ part !! station = None).
    { intros station Hst. rewrite observeLines_absent; [done|].
      destruct (linesOf station part) eqn:E; [done|].
      specialize (Hpart station). lia. }
    rewrite mergeWorker_union, IH; [|intros station Hst|done].
    + unfold observeLines at 3. rewrite foldl_app.
      fold (observeLines ∅ part).
      fold (observeLines (observeLines ∅ part) (concat parts)).
      rewrite <- (right_id_L ∅ (∪) (observeLines ∅ part)) at 2.
      rewrite observeLines_union.
      * by rewrite (assoc_L (∪)).
      * apply Forall_forall. intros kv Hkv. by apply Hobs, linesOf_elem.
    + apply lookup_union_None. split; [|by apply Hobs].
      apply Hm. simpl. rewrite linesOf_app. lia.
Qed.

(** X15: when no station has lines in two of the groups the workers read,
    the merge loses nothing: the merged map is the statistics of all the
    lines, as one worker computes them. *)
Theorem merge_of_separate_stations parts :
  stationsApart parts ->
  mergeResults (map (observeLines ∅) parts) = observeLines ∅ (concat parts)
  /\ forall final,
       mergeAny (map (observeLines ∅) parts) ∅ final ->
       final = observeLines ∅ (concat parts).
Proof.
  intros Hap.
  assert (H : mergeResults (map (observeLines ∅) parts) = observeLines ∅ (concat parts)).
  { unfold mergeResults. rewrite merge_apart; [|by intros|done].
    apply (left_id_L ∅ (∪)). }
  split; [done|]. intros final ->%mergeAny_foldl. exact H.
Qed.

Lemma merge_of_separate_stations_witness :
  mergeResults (map (observeLines ∅) [[("a", "1.00"); ("b", "2.00")]; [("c", "3.00")]])
  = observeLines ∅ (concat [[("a", "1.00"); ("b", "2.00")]; [("c", "3.00")]])
  /\ forall final,
       mergeAny (map (observeLines ∅) [[("a", "1.00"); ("b", "2.00")]; [("c", "3.00")]])
         ∅ final ->
       final = observeLines ∅ (concat [[("a", "1.00"); ("b", "2.00")]; [("c", "3.00")]]).
Proof.
  apply (merge_of_separate_stations [[("a", "1.00"); ("b", "2.00")]; [("c", "3.00")]]).
  simpl. repeat split.
  intros station. rewrite !linesOf_cons. simpl.
  repeat case_decide; subst; try done; unfold linesOf; simpl; lia.
Defined.

(** X16: when each chunk of the plan holds a group of lines and no station
    has lines in two chunks, the workers and the merge together give the
    statistics of all the lines, and every run prints them. *)
Theorem separate_stations_print_all_lines data numWorkers chunks parts :
  0 < len data < 2 ^ 62 -> 1 <= numWorkers ->
  calculateChunks data (len data) numWorkers = Ok chunks ->
  Forall2 (fun c part => slice data c.1 c.2 = linesText part) chunks parts ->
  Forall scannable (concat parts) ->
  stationsApart parts ->
  finalStatsOf data numWorkers = Ok (observeLines ∅ (concat parts))
  /\ forall o, MustRunAny data numWorkers o ->
       o = Ok (printResults (observeLines ∅ (concat parts))).
Proof.
  intros Hlen HW Hplan Hslices Hscan Hap.
  assert (Hrs : Forall2 (fun c r => processChunk data c = Ok r) chunks
                  (map (observeLines ∅) parts)).
  { apply chunks_results; [done|done|]. intros d Hd.
    apply (calculateChunks_in_range data numWorkers chunks); try done; lia. }
  assert (Hstats : finalStatsOf data numWorkers = Ok (observeLines ∅ (concat parts))).
  { unfold finalStatsOf, scanChunks. rewrite Hplan. cbn [mbind outcome_bind].
    apply collect_Ok in Hrs. rewrite Hrs. cbn [mbind outcome_bind].
    unfold mergeResults. rewrite merge_apart; [|by intros|done].
    by rewrite (left_id_L ∅ (∪)). }
  split; [done|]. apply MustRun_Ok_all. unfold MustRun.
  destruct (len data =? 0) eqn:E; [lia|]. by rewrite Hstats.
Qed.

Lemma separate_stations_print_all_lines_witness :
  finalStatsOf threeStations 2
  = Ok (observeLines ∅ (concat [[("a", "1.00"); ("b", "2.00")]; [("c", "3.00")]]))
  /\ forall o, MustRunAny threeStations 2 o ->
       o = Ok (printResults
                 (observeLines ∅ (concat [[("a", "1.00"); ("b", "2.00")]; [("c", "3.00")]]))).
Proof.
  apply (separate_stations_print_all_lines threeStations 2 [(0, 14); (14, 21)]
           [[("a", "1.00"); ("b", "2.00")]; [("c", "3.00")]]).
  - vm_compute. split; reflexivity.
  - lia.
  - reflexivity.
  - repeat constructor.
  - repeat constructor; eexists; reflexivity.
  - simpl. repeat split.
    intros station. rewrite !linesOf_cons. simpl.
    repeat case_decide; subst; try done; unfold linesOf; simpl; lia.
Defined.

(** ** printResults *)

Lemma hasPrefix_app p s : hasPrefix p (p +:+ s) = true.
Proof.
  induction p as [|c p IH]; simpl; [done|]. by rewrite Ascii.eqb_refl.
Qed.

Lemma contains_here sub s : contains (sub +:+ s) sub = true.
Proof.
  destruct (sub +:+ s) eqn:E; simpl; rewrite <- E, hasPrefix_app; done.
Qed.

Lemma contains_app_r a s sub : contains s sub = true -> contains (a +:+ s) sub = true.
Proof.
  intros H. induction a as [|c a IH]; simpl; [done|].
  rewrite IH. apply orb_true_r.
Qed.

Lemma hasPrefix_app_l p s b : hasPrefix p s = true -> hasPrefix p (s +:+ b) = true.
Proof.
  revert s. induction p as [|c p IH]; intros s; [done|].
  destruct s as [|x s]; simpl; [done|].
  intros [Hc Hp]%andb_true_iff. rewrite Hc. by apply IH.
Qed.

Lemma contains_app_l s b sub : contains s sub = true -> contains (s +:+ b) sub = true.
Proof.
  induction s as [|c s IH]; simpl.
  - rewrite orb_false_r. intros H. destruct sub; [|done].
    destruct b; simpl; done.
  - intros [H|H]%orb_true_iff.
    + apply (hasPrefix_app_l _ (String c s) b) in H. simpl in H. by rewrite H.
    + rewrite (IH H). apply orb_true_r.
Qed.

Lemma formatEntries_contains stats names name :
  name ∈ names ->
  contains (formatEntries stats names) (formatEntry stats name) = true.
Proof.
  induction names as [|n names IH]; [by inversion 1|].
  intros [->|Hin]%elem_of_cons; cbn [formatEntries].
  - apply contains_here.
  - by apply contains_app_r, contains_app_r, IH.
Qed.

Lemma sortStrings_elem name names : name ∈ sortStrings names <-> name ∈ names.
Proof. unfold sortStrings. by rewrite merge_sort_Permutation. Qed.

(** X17: whatever the order of the range over the map, printResults
    writes, for every station that has an entry, its name=min/avg/max
    somewhere between the braces. *)
Theorem every_station_is_printed stats stationNames name :
  stationNames ≡ₚ (map_to_list stats).*1 ->
  is_Some (stats !! name) ->
  contains (printResultsFrom stationNames stats) (formatEntry stats name) = true.
Proof.
  intros Hperm [s Hs].
  unfold printResultsFrom. apply (contains_app_r "{"), contains_app_l.
  apply formatEntries_contains, sortStrings_elem. rewrite Hperm.
  apply list_elem_of_fmap. exists (name, s). split; [done|].
  by apply elem_of_map_to_list.
Qed.

Lemma every_station_is_printed_witness :
  contains (printResultsFrom ["b"; "a"] (mergeResults sharedStation))
    (formatEntry (mergeResults sharedStation) "b") = true.
Proof.
  apply (every_station_is_printed (mergeResults sharedStation) ["b"; "a"] "b").
  - vm_compute. apply perm_swap.
  - vm_compute. eexists. reflexivity.
Defined.

Lemma SFeqb_finite a s m e :
  SFeqb a (S754_finite s m e) = true -> a = S754_finite s m e.
Proof.
  unfold SFeqb, SFcompare. destruct a as [sa|sa| |sa ma ea]; try done.
  - by destruct s.
  - by destruct sa.
  - change (Pos.compare_cont Eq ma m) with (Pos.compare ma m).
    destruct sa, s; try done;
      destruct (Z.compare_spec ea e), (Pos.compare_spec ma m); subst; done.
Qed.

(** Line 283 for a station with one value: [Sum / float64(1)] is the
    value. *)
Lemma div_one_scaled v :
  - 99999 <= v <= 99999 ->
  PrimFloat.div (scaledFloat v) (float64_of_int64 1) = scaledFloat v.
Proof.
  intros Hv. pose proof (checked_range v Hv) as Hc. unfold checked in Hc.
  cbv zeta in Hc. apply andb_true_iff in Hc as [Hc _].
  apply andb_true_iff in Hc as [_ Heq].
  destruct (scaled_shape v Hv) as [[-> _]|(m & e & Hsf & _)]; [by vm_compute|].
  rewrite FloatAxioms.eqb_spec, Hsf in Heq. apply SFeqb_finite in Heq.
  apply Prim2SF_inj. by rewrite Heq, Hsf.
Qed.

Lemma parseTemp_average_of_one b t :
  parseTemp b = Some t -> PrimFloat.div t (float64_of_int64 1) = t.
Proof.
  intros Ht. assert (is_Some (parseTemp b)) as Hs by eauto.
  apply parseTemp_accepts_iff in Hs as (p & rest & -> & Hp).
  rewrite (parseTemp_prefix_value p rest Hp) in Ht. injection Ht as <-.
  apply div_one_scaled. by apply scaledValue_range.
Qed.

(** The entry of a station after its only line. *)
Lemma observeLines_single name value temp lines : forall stats,
  stats !! name = None ->
  (name, value) ∈ lines -> linesOf name lines = 1%nat ->
  parseTemp value = Some temp ->
  observeLines stats lines !! name
  = Some {| Count := 1; Min := temp; Max := temp; Sum := temp |}.
Proof.
  induction lines as [|kv lines IH]; intros stats Hst Hin Hone Hv; [by inversion Hin|].
  rewrite linesOf_cons in Hone.
  unfold observeLines. cbn [foldl]. fold (observeLines (observeLine stats kv) lines).
  destruct (decide (kv.1 = name)) as [Hkv|Hne].
  - assert (kv = (name, value)) as ->.
    { apply elem_of_cons in Hin as [->|Hin]; [done|].
      apply linesOf_elem in Hin. simpl in Hin. lia. }
    rewrite observeLines_absent by lia.
    unfold observeLine. simpl. rewrite Hv. unfold observe. rewrite Hst.
    by rewrite lookup_insert_eq.
  - apply IH; [| |lia|done].
    2: { apply elem_of_cons in Hin as [Heq|Hin]; [|done]. by rewrite <- Heq in Hne. }
    unfold observeLine. destruct (parseTemp kv.2) as [t|]; [|done].
    unfold observe. destruct (stats !! kv.1); by rewrite lookup_insert_ne.
Qed.

(** The merged entry of a station with one line in all the groups. *)
Lemma firstEntry_single name value temp parts :
  (name, value) ∈ concat parts -> linesOf name (concat parts) = 1%nat ->
  parseTemp value = Some temp ->
  firstEntry name (map (observeLines ∅) parts)
  = Some {| Count := 1; Min := temp; Max := temp; Sum := temp |}.
Proof.
  induction parts as [|part parts IH]; intros Hin Hone Hv; [by inversion Hin|].
  simpl in *. rewrite linesOf_app in Hone.
  destruct (decide ((name, value) ∈ part)) as [Hp|Hp].
  - pose proof (linesOf_elem _ _ Hp) as Hpos. simpl in Hpos.
    rewrite (observeLines_single name value temp); [done|done|done|lia|done].
  - apply elem_of_app in Hin as [Hin|Hin]; [done|].
    pose proof (linesOf_elem _ _ Hin) as Hpos. simpl in Hpos.
    rewrite observeLines_absent by lia. rewrite lookup_empty.
    apply IH; [done|lia|done].
Qed.

(** X18: on a file of whole lines, a station with one line only is printed
    by every run, with any number of workers, as name=v/v/v, where v is its
    value as %.2f prints it. *)
Theorem station_with_one_line_is_printed data lines numWorkers name value temp :
  data = linesText lines -> Forall wholeLine lines ->
  0 < len data < 2 ^ 62 -> 1 <= numWorkers ->
  (name, value) ∈ lines -> linesOf name lines = 1%nat ->
  parseTemp value = Some temp ->
  forall o, MustRunAny data numWorkers o ->
    exists out, o = Ok out /\ contains out (constantEntry name temp) = true.
Proof.
  intros Hdata Hall Hlen HW Hin Hone Hv.
  destruct (plan_parts data lines numWorkers)
    as (chunks & parts & Hplan & Hparts & Hn & Hrs); try done.
  set (final := mergeResults (map (observeLines ∅) parts)).
  assert (Hrun : MustRun data numWorkers = Ok (printResults final)).
  { unfold MustRun. destruct (len data =? 0) eqn:E; [lia|].
    unfold finalStatsOf, scanChunks. rewrite Hplan. cbn [mbind outcome_bind].
    apply collect_Ok in Hrs. by rewrite Hrs. }
  assert (Hentry : final !! name
                   = Some {| Count := 1; Min := temp; Max := temp; Sum := temp |}).
  { unfold final, mergeResults. rewrite foldl_mergeWorker_lookup, lookup_empty.
    apply (firstEntry_single name value); by rewrite ?Hparts. }
  assert (Hfmt : formatEntry final name = constantEntry name temp).
  { unfold formatEntry, constantEntry. rewrite Hentry. simpl.
    by rewrite (parseTemp_average_of_one value temp Hv). }
  intros o Ho. exists (printResults final).
  split; [by apply (MustRun_Ok_all data numWorkers)|].
  rewrite <- Hfmt. unfold printResults, printResultsFrom.
  apply (contains_app_r "{"), contains_app_l.
  apply formatEntries_contains, sortStrings_elem.
  apply list_elem_of_fmap. eexists (name, _). split; [done|].
  apply elem_of_map_to_list. exact Hentry.
Qed.

Lemma station_with_one_line_is_printed_witness :
  exists out, MustRun threeStations 2 = Ok out
              /\ contains out (constantEntry "b" (scaledFloat 200)) = true.
Proof.
  apply (station_with_one_line_is_printed threeStations
           [("a", "1.00"); ("b", "2.00"); ("c", "3.00")] 2 "b" "2.00" (scaledFloat 200)).
  - reflexivity.
  - repeat constructor; eexists; reflexivity.
  - vm_compute. split; reflexivity.
  - lia.
  - apply list_elem_of_further, list_elem_of_here.
  - reflexivity.
  - reflexivity.
  - apply MustRun_sound.
Defined.

(** ** The order of the values *)

Lemma parsed_scaled b t :
  parseTemp b = Some t -> exists v, - 99999 <= v <= 99999 /\ t = scaledFloat v.
Proof.
  intros Ht. assert (is_Some (parseTemp b)) as Hs by eauto.
  apply parseTemp_accepts_iff in Hs as (p & rest & -> & Hp).
  rewrite (parseTemp_prefix_value p rest Hp) in Ht. injection Ht as <-.
  exists (scaledValue p). split; [by apply scaledValue_range|done].
Qed.

(** [SFcompare] orders the floats that are not NaN as their codes. *)
Lemma SFltb_code a b :
  SFltb a b = true
  <-> a <> S754_nan /\ b <> S754_nan /\ codeLt (code a) (code b).
Proof.
  unfold SFltb, SFcompare, codeLt.
  destruct a as [sa|sa| |sa ma ea], b as [sb|sb| |sb mb eb];
    try (split; [done|by intros (? & ? & ?)]);
    try destruct sa; try destruct sb; simpl;
    try (split; [done|intros (_ & _ & ?); lia]);
    try (split; [intros _; repeat split; try done; lia|done]).
  - change (Pos.compare_cont Eq ma mb) with (Pos.compare ma mb).
    destruct (Z.compare_spec ea eb), (Pos.compare_spec ma mb); subst; simpl;
      first [split; [done|intros (_ & _ & ?); lia]
            |split; [intros _; repeat split; try done; lia|done]].
  - change (Pos.compare_cont Eq ma mb) with (Pos.compare ma mb).
    destruct (Z.compare_spec ea eb), (Pos.compare_spec ma mb); subst; simpl;
      first [split; [done|intros (_ & _ & ?); lia]
            |split; [intros _; repeat split; try done; lia|done]].
Qed.

Lemma SFltb_trans a b c :
  SFltb a b = true -> SFltb b c = true -> SFltb a c = true.
Proof.
  rewrite !SFltb_code. unfold codeLt.
  intros (Ha & _ & Hab) (_ & Hc & Hbc). repeat split; try done.
  destruct (code a) as [a1 [a2 a3]], (code b) as [b1 [b2 b3]], (code c) as [c1 [c2 c3]].
  simpl in *. lia.
Qed.

Lemma SFltb_irrefl a : SFltb a a = false.
Proof.
  destruct (SFltb a a) eqn:E; [|done]. apply SFltb_code in E as (_ & _ & E).
  unfold codeLt in E. lia.
Qed.

Lemma ltb_step v :
  - 99999 <= v <= 99999 -> PrimFloat.ltb (scaledFloat v) (scaledFloat (v + 1)) = true.
Proof.
  intros Hv%checked_range. unfold checked in Hv. cbv zeta in Hv.
  apply andb_true_iff in Hv as [Hv _]. by apply andb_true_iff in Hv as [Hv _].
Qed.

Lemma ltb_chain n : forall v,
  - 99999 <= v -> v + Z.of_nat n <= 99999 ->
  PrimFloat.ltb (scaledFloat v) (scaledFloat (v + Z.of_nat n + 1)) = true.
Proof.
  induction n as [|n IH]; intros v Hlo Hhi.
  - rewrite Z.add_0_r. apply ltb_step. lia.
  - rewrite FloatAxioms.ltb_spec.
    apply (SFltb_trans _ (Prim2SF (scaledFloat (v + Z.of_nat n + 1)))).
    + rewrite <- FloatAxioms.ltb_spec. apply IH; lia.
    + rewrite <- FloatAxioms.ltb_spec.
      replace (v + Z.of_nat (S n) + 1) with (v + Z.of_nat n + 1 + 1) by lia.
      apply ltb_step. lia.
Qed.

(** On the floats parseTemp returns, [<] is the order of the scaled
    integers. *)
Lemma ltb_scaled v w :
  - 99999 <= v <= 99999 -> - 99999 <= w <= 99999 ->
  PrimFloat.ltb (scaledFloat v) (scaledFloat w) = (v <? w).
Proof.
  intros Hv Hw.
  assert (Hlt : forall a b, - 99999 <= a -> a < b -> b <= 99999 ->
            PrimFloat.ltb (scaledFloat a) (scaledFloat b) = true).
  { intros a b Ha Hab Hb.
    replace b with (a + Z.of_nat (Z.to_nat (b - a - 1)) + 1) by lia.
    apply ltb_chain; lia. }
  destruct (Z.lt_trichotomy v w) as [H|[->|H]].
  - rewrite (proj2 (Z.ltb_lt v w)) by done. apply Hlt; lia.
  - rewrite Z.ltb_irrefl, FloatAxioms.ltb_spec. apply SFltb_irrefl.
  - rewrite (proj2 (Z.ltb_ge v w)) by lia.
    destruct (PrimFloat.ltb (scaledFloat v) (scaledFloat w)) eqn:E; [|done].
    pose proof (Hlt w v ltac:(lia) H ltac:(lia)) as E'.
    rewrite FloatAxioms.ltb_spec in E, E'.
    pose proof (SFltb_trans _ _ _ E E') as Hbad. by rewrite SFltb_irrefl in Hbad.
Qed.

Lemma is_nan_scaled v : - 99999 <= v <= 99999 -> PrimFloat.is_nan (scaledFloat v) = false.
Proof.
  intros Hv. unfold PrimFloat.is_nan. rewrite FloatAxioms.eqb_spec.
  destruct (scaled_shape v Hv) as [[_ ->]|(m & e & -> & _)]; [done|].
  unfold SFeqb, SFcompare. rewrite Z.compare_refl.
  change (Pos.compare_cont Eq m m) with (Pos.compare m m). rewrite Pos.compare_refl.
  by destruct (v <? 0).
Qed.

(** [min] and [max] of lines 256-257 on the floats parseTemp returns. *)
Lemma min_scaled v w :
  - 99999 <= v <= 99999 -> - 99999 <= w <= 99999 ->
  F64.min (scaledFloat v) (scaledFloat w) = scaledFloat (Z.min v w).
Proof.
  intros Hv Hw. unfold F64.min.
  rewrite !is_nan_scaled, !ltb_scaled by done. simpl.
  destruct (v <? w) eqn:E1; [by rewrite Z.min_l by lia|].
  destruct (w <? v) eqn:E2; [by rewrite Z.min_r by lia|].
  assert (v = w) as -> by lia. rewrite Z.min_id. by destruct (F64.is_neg_zero _).
Qed.

Lemma max_scaled v w :
  - 99999 <= v <= 99999 -> - 99999 <= w <= 99999 ->
  F64.max (scaledFloat v) (scaledFloat w) = scaledFloat (Z.max v w).
Proof.
  intros Hv Hw. unfold F64.max.
  rewrite !is_nan_scaled, !ltb_scaled by done. simpl.
  destruct (v <? w) eqn:E1; [by rewrite Z.max_r by lia|].
  destruct (w <? v) eqn:E2; [by rewrite Z.max_l by lia|].
  assert (v = w) as -> by lia. rewrite Z.max_id. by destruct (F64.is_neg_zero _).
Qed.

Lemma scaledFloat_inj v w :
  - 99999 <= v <= 99999 -> - 99999 <= w <= 99999 ->
  scaledFloat v = scaledFloat w -> v = w.
Proof.
  intros Hv Hw Heq. pose proof (ltb_scaled v w Hv Hw) as H1.
  pose proof (ltb_scaled w v Hw Hv) as H2.
  rewrite Heq, (ltb_scaled w w) in H1 by done. rewrite Heq, (ltb_scaled w w) in H2 by done.
  lia.
Qed.

Lemma tracked_empty : tracked ∅ [].
Proof. intros station. rewrite lookup_empty. intros value. by inversion 1. Qed.

(** One more line: lines 255-267 keep the extremes. *)
Lemma tracked_observe stats lines kv temp :
  tracked stats lines -> parseTemp kv.2 = Some temp ->
  tracked (observe stats kv.1 temp) (lines ++ [kv]).
Proof.
  destruct kv as [name val]. cbn [fst snd].
  intros Htr Ht station. specialize (Htr station).
  destruct (parsed_scaled _ _ Ht) as (v & Hv & ->).
  assert (Hkv : (name, val) ∈ lines ++ [(name, val)]).
  { apply elem_of_app. right. apply list_elem_of_here. }
  assert (Hnew : forall value w,
            (name, value) ∈ lines ++ [(name, val)] -> (name, value) ∉ lines ->
            - 99999 <= w <= 99999 -> parseTemp value = Some (scaledFloat w) -> w = v).
  { intros value w [Hin|Hin]%elem_of_app Hout Hw Hpw; [done|].
    apply list_elem_of_singleton in Hin. injection Hin as ->.
    rewrite Ht in Hpw. injection Hpw as Hpw. symmetry.
    by apply scaledFloat_inj in Hpw. }
  unfold observe. destruct (decide (name = station)) as [<-|Hne].
  - destruct (stats !! name) as [s|] eqn:Hs; rewrite lookup_insert_eq.
    + destruct Htr as (lo & hi & vlo & vhi & Hlo & Hhi & Hmin & Hmax
                       & Hinlo & Hplo & Hinhi & Hphi & Hall).
      cbn [Min Max]. rewrite Hmin, Hmax, min_scaled, max_scaled by done.
      exists (Z.min lo v), (Z.max hi v),
        (if v <? lo then val else vlo), (if hi <? v then val else vhi).
      split; [lia|]. split; [lia|]. split; [done|]. split; [done|].
      split; [|split; [|split; [|split]]].
      * destruct (v <? lo); [done|]. apply elem_of_app. by left.
      * destruct (v <? lo) eqn:E; [by rewrite Z.min_r by lia|by rewrite Z.min_l by lia].
      * destruct (hi <? v); [done|]. apply elem_of_app. by left.
      * destruct (hi <? v) eqn:E; [by rewrite Z.max_r by lia|by rewrite Z.max_l by lia].
      * intros value w Hin Hw Hpw.
        destruct (decide ((name, value) ∈ lines)) as [Hold|Hout].
        -- specialize (Hall value w Hold Hw Hpw). lia.
        -- rewrite (Hnew value w Hin Hout Hw Hpw). lia.
    + cbn [Min Max]. exists v, v, val, val.
      split; [lia|]. split; [lia|]. repeat (split; [done|]).
      intros value w Hin Hw Hpw.
      rewrite (Hnew value w Hin (Htr value) Hw Hpw). lia.
  - assert (Hother : forall value, (station, value) ∈ lines ++ [(name, val)] ->
              (station, value) ∈ lines).
    { intros value [Hin|Hin]%elem_of_app; [done|].
      apply list_elem_of_singleton in Hin. by injection Hin as <-. }
    assert (Hsame : observe stats name (scaledFloat v) !! station = stats !! station).
    { unfold observe. destruct (stats !! name); by rewrite lookup_insert_ne. }
    unfold observe in Hsame. rewrite Hsame.
    destruct (stats !! station) as [s|].
    + destruct Htr as (lo & hi & vlo & vhi & Hlo & Hhi & Hmin & Hmax
                       & Hinlo & Hplo & Hinhi & Hphi & Hall).
      exists lo, hi, vlo, vhi.
      split; [lia|]. split; [lia|]. split; [done|]. split; [done|].
      split; [apply elem_of_app; by left|]. split; [done|].
      split; [apply elem_of_app; by left|]. split; [done|].
      intros value w Hin Hw Hpw. apply (Hall value w); [by apply Hother|done|done].
    + intros value Hin. by apply (Htr value), Hother.
Qed.

Lemma observeLines_tracked lines :
  Forall scannable lines -> tracked (observeLines ∅ lines) lines.
Proof.
  induction lines as [|kv lines IH] using rev_ind; intros Hall; [apply tracked_empty|].
  apply Forall_app in Hall as [Hall Hkv].
  inversion Hkv as [|? ? (_ & _ & [temp Ht]) _]; subst.
  unfold observeLines. rewrite foldl_app. cbn [foldl].
  fold (observeLines ∅ lines). unfold observeLine. rewrite Ht.
  apply tracked_observe; [by apply IH|done].
Qed.

(** X19: in the map a worker returns for a chunk of lines, the Min and the
    Max of a station are the values of two of its lines, and no value of
    its lines is below the Min or above the Max, in the order [<] of
    float64. *)
Theorem chunk_min_max_are_extremes data chunk lines tail stats station s :
  sliceOk data chunk.1 chunk.2 = true ->
  slice data chunk.1 chunk.2 = linesText lines +:+ tail ->
  Forall scannable lines ->
  hasByte semicolon tail = false ->
  processChunk data chunk = Ok stats ->
  stats !! station = Some s ->
  extremesOf s station lines.
Proof.
  intros Hok Hs Hall Htail Hrun Hst.
  rewrite (processChunk_lines _ _ _ tail Hok Hs Hall Htail) in Hrun.
  injection Hrun as <-.
  pose proof (observeLines_tracked lines Hall station) as Htr. rewrite Hst in Htr.
  destruct Htr as (lo & hi & vlo & vhi & Hlo & Hhi & Hmin & Hmax
                   & Hinlo & Hplo & Hinhi & Hphi & Hbound).
  unfold extremesOf. rewrite Hmin, Hmax.
  split; [by exists vlo|]. split; [by exists vhi|].
  intros value t Hin Ht. destruct (parsed_scaled _ _ Ht) as (v & Hv & ->).
  rewrite !ltb_scaled by done. specialize (Hbound value v Hin Hv Ht).
  split; apply Z.ltb_ge; lia.
Qed.

Lemma chunk_min_max_are_extremes_witness :
  extremesOf {| Count := 3; Min := 1; Max := 3; Sum := 6 |} "a"
    [("a", "2.00"); ("a", "1.00"); ("a", "3.00")].
Proof.
  apply (chunk_min_max_are_extremes
           ("a;2.00" +:+ nl +:+ "a;1.00" +:+ nl +:+ "a;3.00" +:+ nl) (0, 21)
           [("a", "2.00"); ("a", "1.00"); ("a", "3.00")] ""
           {[ "a" := {| Count := 3; Min := 1; Max := 3; Sum := 6 |} ]} "a").
  - reflexivity.
  - reflexivity.
  - repeat constructor; eexists; reflexivity.
  - reflexivity.
  - vm_compute. reflexivity.
  - reflexivity.
Defined.

(** ** The errors of a run *)

Lemma index_stake n : forall s k,
  0 <= k < Z.of_nat n -> index (stake n s) k = index s k.
Proof.
  induction n as [|n IH]; intros s k Hk; [lia|].
  destruct s as [|c s]; [done|]. cbn [stake].
  destruct (decide (k = 0)) as [->|Hne]; [by rewrite !index_0|].
  replace k with (k - 1 + 1) by lia. rewrite !index_succ by lia. apply IH. lia.
Qed.

Lemma index_slice data lo hi k :
  0 <= lo -> 0 <= k < hi - lo -> index (slice data lo hi) k = index data (lo + k).
Proof.
  intros Hlo Hk. unfold slice. rewrite index_stake by lia.
  rewrite index_sdrop by lia. f_equal. lia.
Qed.

(** X20: in a run on a file that is not empty, where the calls before the
    workers have succeeded (the file exists, is opened and mapped, and its
    size is read), an error comes from a worker only: there is at least one
    worker, and the error carries the bytes of a whole value field of the
    file, from just after a semicolon to the next newline or to the end of
    the file, which parseTemp rejects. No chunk boundary cuts the field. *)
Theorem run_error_is_a_malformed_value data numWorkers e :
  0 < len data < 2 ^ 62 ->
  MustRunAny data numWorkers (Err e) ->
  1 <= numWorkers
  /\ exists start stop,
       e = MalformedNumber (slice data start stop)
       /\ 0 < start /\ start <= stop /\ stop <= len data
       /\ index data (start - 1) = semicolon
       /\ hasByte newline (slice data start stop) = false
       /\ (stop = len data \/ index data stop = newline)
       /\ parseTemp (slice data start stop) = None.
Proof.
  intros Hlen H.
  inversion H as [Hz| | |chunks chunk e' Hne Hplan Hin Herr|]; subst; [lia|].
  assert (1 <= numWorkers) as HW.
  { destruct (decide (1 <= numWorkers)) as [|HW]; [done|].
    rewrite calculateChunks_no_workers in Hplan by lia. done. }
  split; [done|].
  unfold processChunk in Herr.
  apply scanLoop_error in Herr
    as (start & stop & -> & P0 & P1 & P2 & P3 & P4 & P5 & P6 & P7 & P8).
  exists start, stop. repeat split; try done; try lia.
  destruct P7 as [->|P7]; [|by right].
  destruct (chunks_at_boundaries data numWorkers chunks chunk)
    as (_ & _ & _ & _ & [Hb|[Hb|Hb]]); [lia|lia|done|done|lia|by left|].
  exfalso. destruct (decide (start = chunk.2)) as [Heq|Hlt].
  - rewrite Heq, Hb in P5. discriminate P5.
  - apply (index_hasByte newline (slice data start chunk.2) (chunk.2 - 1 - start)).
    + done.
    + rewrite len_slice by (apply sliceOk_spec; lia). lia.
    + rewrite index_slice by lia. rewrite <- Hb. f_equal. lia.
Qed.

Lemma run_error_is_a_malformed_value_witness :
  1 <= 3
  /\ exists start stop,
       MalformedNumber "NaN" = MalformedNumber (slice twoMalformed start stop)
       /\ 0 < start /\ start <= stop /\ stop <= len twoMalformed
       /\ index twoMalformed (start - 1) = semicolon
       /\ hasByte newline (slice twoMalformed start stop) = false
       /\ (stop = len twoMalformed \/ index twoMalformed stop = newline)
       /\ parseTemp (slice twoMalformed start stop) = None.
Proof.
  apply (run_error_is_a_malformed_value twoMalformed 3 (MalformedNumber "NaN")).
  - vm_compute. split; reflexivity.
  - apply (run_worker_error twoMalformed 3 [(0, 6); (6, 12); (12, 12)] (0, 6));
      [discriminate | reflexivity | apply list_elem_of_here | reflexivity].
Defined.
